(** * hive-auth-wrapper: the request store and the three request flows

    A shallow embedding of [has-wrapper.js]: the array [requests] of pushed
    HAS messages with its lazily expiring lookup [getRequest], the inbound
    handler [wsHAS.onmessage], the argument checks and request set-up of
    [authenticate], [broadcast] and [challenge], and the body of the polling
    callback each of them installs with [setInterval].

    Conventions.
    - [Date.now()] is an explicit argument [now]; the reads of the clock
      within one run of a callback are taken as one instant.
    - [cbWait], when given, returns normally.
    - [CryptoJS.AES] and [JSON] are capabilities of the environment: they
      are Section variables, never implemented here; the string [uuidv4()]
      draws is an argument [fresh].
    - [await isConnected()] is the argument [connected] of the entry points.
    - [trace] is off, so the [console.log] lines have no counterpart. *)

From Stdlib Require Import ZArith List String Bool Lia.
Import ListNotations.
Open Scope string_scope.
Open Scope Z_scope.

(** ** JavaScript values handed in by the caller *)

#[local] Unset Elimination Schemes.
Inductive value : Type :=
| Undefined
| Null
| Bool (b : bool)
| Num (z : Z)
| Str (s : string)
| Arr (items : list value)
| Obj (fields : list (string * value)).
#[local] Set Elimination Schemes.

(** Truthiness, as [&&], [||], [!] and [if] see a value. *)
Definition truthy (v : value) : bool :=
  match v with
  | Undefined | Null => false
  | Bool b => b
  | Num z => negb (z =? 0)
  | Str s => negb (String.eqb s "")
  | Arr _ | Obj _ => true
  end.

(** [typeof(v)=="string"] *)
Definition is_string (v : value) : bool :=
  match v with Str _ => true | _ => false end.

(** [Array.isArray(v)] *)
Definition isArray (v : value) : bool :=
  match v with Arr _ => true | _ => false end.

Fixpoint lookup_field (name : string) (fields : list (string * value)) : value :=
  match fields with
  | [] => Undefined
  | (k, v) :: rest => if String.eqb k name then v else lookup_field name rest
  end.

(** [v.name] for a [v] that is not [undefined] or [null] (the sources only
    read a property behind a truthiness test or inside [try]). *)
Definition prop (v : value) (name : string) : value :=
  match v with
  | Obj fields => lookup_field name fields
  | _ => Undefined
  end.

(** [a || b] *)
Definition or_else (a b : value) : value := if truthy a then a else b.

(** Truthiness of an optional string ([undefined] or a string) and of an
    optional number ([undefined] or a number). *)
Definition truthy_str (s : option string) : bool :=
  match s with Some x => negb (String.eqb x "") | None => false end.

Definition truthy_num (n : option Z) : bool :=
  match n with Some x => negb (x =? 0) | None => false end.

(** [a == b] on two optional strings. *)
Definition loose_eq (a b : option string) : bool :=
  match a, b with
  | Some x, Some y => String.eqb x y
  | None, None => true
  | _, _ => false
  end.

(** ** Protocol constants *)

Module CMD.
Definition CONNECTED      := "connected".
Definition AUTH_REQ       := "auth_req".
Definition AUTH_WAIT      := "auth_wait".
Definition AUTH_ACK       := "auth_ack".
Definition AUTH_NACK      := "auth_nack".
Definition AUTH_ERR       := "auth_err".
Definition SIGN_REQ       := "sign_req".
Definition SIGN_WAIT      := "sign_wait".
Definition SIGN_ACK       := "sign_ack".
Definition SIGN_NACK      := "sign_nack".
Definition SIGN_ERR       := "sign_err".
Definition CHALLENGE_REQ  := "challenge_req".
Definition CHALLENGE_WAIT := "challenge_wait".
Definition CHALLENGE_ACK  := "challenge_ack".
Definition CHALLENGE_NACK := "challenge_nack".
Definition CHALLENGE_ERR  := "challenge_err".
Definition ERROR          := "error".
End CMD.

Definition HAS_timeout_default : Z := 60 * 1000.

(** ** Pushed messages

    A message as [JSON.parse(event.data)] yields it, with the fields the
    wrapper reads.  [cmd] is the empty string when the field is missing;
    [uuid] and [expire] are [None] when missing.  [data] and [error] are
    arbitrary values: cipher text on the wire, and for [data] the parsed
    payload once a flow has overwritten it.  [key] is written by
    [authenticate] before it hands an [auth_wait] to the caller. *)
Module Msg.
Record t : Type := mk {
  cmd     : string;
  uuid    : option string;
  expire  : option Z;
  data    : value;
  error   : value;
  timeout : option Z;
  key     : value
}.

Definition set_data (d : value) (m : t) : t :=
  mk (cmd m) (uuid m) (expire m) d (error m) (timeout m) (key m).

Definition set_key (k : value) (m : t) : t :=
  mk (cmd m) (uuid m) (expire m) (data m) (error m) (timeout m) k.
End Msg.

Definition message : Type := Msg.t.

(** ** The pending message store *)

(** [o => !o.expire || o.expire >= Date.now()] *)
Definition not_expired (now : Z) (o : message) : bool :=
  negb (truthy_num (Msg.expire o))
  || match Msg.expire o with Some e => now <=? e | None => false end.

(** [o => o.cmd==type && (uuid ? o.uuid==uuid : true)] *)
Definition matching (type : string) (uuid : option string) (o : message) : bool :=
  String.eqb (Msg.cmd o) type
  && (if truthy_str uuid then loose_eq (Msg.uuid o) uuid else true).

(** [o => !(o.cmd==type && (uuid ? o.uuid==req.uuid : true))] *)
Definition not_taken (type : string) (uuid : option string) (req o : message) : bool :=
  negb (String.eqb (Msg.cmd o) type
        && (if truthy_str uuid then loose_eq (Msg.uuid o) (Msg.uuid req) else true)).

(** [getRequest(type, uuid)]: the value returned and the new contents of
    the global [requests]. *)
Definition getRequest (now : Z) (type : string) (uuid : option string)
    (requests : list message) : option message * list message :=
  let requests := filter (not_expired now) requests in
  match find (matching type uuid) requests with
  | Some req => (Some req, filter (not_taken type uuid req) requests)
  | None => (None, requests)
  end.

(** ** The inbound handler *)

Record globals : Type := mkGlobals {
  HAS_connected : bool;
  HAS_timeout   : option Z;     (* [None]: NaN, from a handshake without [timeout] *)
  requests      : list message
}.

Definition stored_kinds : list string :=
  [CMD.AUTH_WAIT; CMD.AUTH_ACK; CMD.AUTH_NACK; CMD.AUTH_ERR;
   CMD.SIGN_WAIT; CMD.SIGN_ACK; CMD.SIGN_NACK; CMD.SIGN_ERR;
   CMD.CHALLENGE_WAIT; CMD.CHALLENGE_ACK; CMD.CHALLENGE_NACK; CMD.CHALLENGE_ERR;
   CMD.ERROR].

Definition is_stored_kind (c : string) : bool :=
  existsb (String.eqb c) stored_kinds.

(** [wsHAS.onmessage], after [JSON.parse]. *)
Definition onmessage (m : message) (g : globals) : globals :=
  if String.eqb (Msg.cmd m) "" then g
  else if String.eqb (Msg.cmd m) CMD.CONNECTED then
    mkGlobals (HAS_connected g) (option_map (fun t => t * 1000) (Msg.timeout m)) (requests g)
  else if is_stored_kind (Msg.cmd m) then
    mkGlobals (HAS_connected g) (HAS_timeout g) (requests g ++ [m])
  else g.

(** ** What a flow keeps between two runs of its polling callback *)

(** The caller's credential object ([class Auth]). *)
Module Auth.
Record t : Type := mk {
  username : value;
  token    : value;
  expire   : value;
  key      : value
}.
End Auth.

(** How the promise handed to the caller is settled. *)
Inductive outcome : Type :=
| Resolved (m : message)          (* [resolve(req_ack)] *)
| Rejected (m : message)          (* [reject(req_nack)], [reject(req_err)] *)
| RejectedError (text : string).  (* [reject(new Error(text))] *)

Module Flow.
Record t : Type := mk {
  store    : list message;    (* the global [requests] *)
  uuid     : option string;   (* [let uuid] *)
  expire   : option Z;        (* [let expire]; [None]: undefined or NaN *)
  waiting  : bool;            (* the interval [wait] is still installed *)
  promise  : option outcome;  (* [None]: pending *)
  notified : list message;    (* what [cbWait] was called with, oldest first *)
  auth     : Auth.t           (* the caller's [auth] object *)
}.
End Flow.

Definition with_store (rs : list message) (s : Flow.t) : Flow.t :=
  Flow.mk rs (Flow.uuid s) (Flow.expire s) (Flow.waiting s) (Flow.promise s)
          (Flow.notified s) (Flow.auth s).

Definition with_auth (a : Auth.t) (s : Flow.t) : Flow.t :=
  Flow.mk (Flow.store s) (Flow.uuid s) (Flow.expire s) (Flow.waiting s)
          (Flow.promise s) (Flow.notified s) a.

(** [clearInterval(wait)] *)
Definition clearInterval (s : Flow.t) : Flow.t :=
  Flow.mk (Flow.store s) (Flow.uuid s) (Flow.expire s) false (Flow.promise s)
          (Flow.notified s) (Flow.auth s).

(** [resolve(x)] and [reject(x)]: a promise keeps its first settlement,
    later calls do nothing. *)
Definition settle (o : outcome) (s : Flow.t) : Flow.t :=
  match Flow.promise s with
  | Some _ => s
  | None =>
      Flow.mk (Flow.store s) (Flow.uuid s) (Flow.expire s) (Flow.waiting s)
              (Some o) (Flow.notified s) (Flow.auth s)
  end.

(** The [*_wait] branch shared by the three callbacks: [uuid = req.uuid],
    [expire = req.expire], [if(cbWait) cbWait(req)]. *)
Definition confirm (rs : list message) (req handed : message) (cbWait : bool)
    (s : Flow.t) : Flow.t :=
  Flow.mk rs (Msg.uuid req) (Msg.expire req) (Flow.waiting s) (Flow.promise s)
          (Flow.notified s ++ (if cbWait then [handed] else [])) (Flow.auth s).

(** [expire <= Date.now()] *)
Definition deadline_passed (now : Z) (expire : option Z) : bool :=
  match expire with Some e => e <=? now | None => false end.

(** The closing check of every callback:
    [if(expire <= Date.now()) { clearInterval(wait); reject(new Error("expired")) }] *)
Definition check_expired (now : Z) (s : Flow.t) : Flow.t :=
  if deadline_passed now (Flow.expire s)
  then settle (RejectedError "expired") (clearInterval s)
  else s.

(** The spec's phases, read off the callback's own test [if(!uuid)]. *)
Inductive phase : Type := Sent | Confirmed.

Definition phase_of (s : Flow.t) : phase :=
  if truthy_str (Flow.uuid s) then Confirmed else Sent.

Inductive flow_kind : Type := Authenticate | Broadcast | Challenge.

Definition wait_kind (f : flow_kind) : string :=
  match f with
  | Authenticate => CMD.AUTH_WAIT
  | Broadcast => CMD.SIGN_WAIT
  | Challenge => CMD.CHALLENGE_WAIT
  end.

Definition ack_kind (f : flow_kind) : string :=
  match f with
  | Authenticate => CMD.AUTH_ACK
  | Broadcast => CMD.SIGN_ACK
  | Challenge => CMD.CHALLENGE_ACK
  end.

Definition nack_kind (f : flow_kind) : string :=
  match f with
  | Authenticate => CMD.AUTH_NACK
  | Broadcast => CMD.SIGN_NACK
  | Challenge => CMD.CHALLENGE_NACK
  end.

Definition err_kind (f : flow_kind) : string :=
  match f with
  | Authenticate => CMD.AUTH_ERR
  | Broadcast => CMD.SIGN_ERR
  | Challenge => CMD.CHALLENGE_ERR
  end.

(** The three lookups that open the [else] branch of every callback, in
    source order; each one works on the store the previous one left. *)
Definition terminal_lookups (f : flow_kind) (now : Z) (uuid : option string)
    (rs : list message)
  : option message * option message * option message * list message :=
  let '(req_ack, rs) := getRequest now (ack_kind f) uuid rs in
  let '(req_nack, rs) := getRequest now (nack_kind f) uuid rs in
  let '(req_err, rs) := getRequest now (err_kind f) uuid rs in
  (req_ack, req_nack, req_err, rs).

(** Failing asserts.  Every entry point runs its body as the [async]
    executor of [new Promise]: a failed [assert] rejects the executor's own
    promise and never reaches [reject]. *)
Inductive checked (A : Type) : Type :=
| Passed (a : A)
| AssertionError (text : string).
Arguments Passed {A} a.
Arguments AssertionError {A} text.

Definition assert (c : bool) (text : string) : checked unit :=
  if c then Passed tt else AssertionError text.

Definition and_then {A B : Type} (c : checked A) (k : A -> checked B) : checked B :=
  match c with
  | Passed a => k a
  | AssertionError text => AssertionError text
  end.

Notation "c ;; k" := (and_then c (fun _ => k))
  (at level 61, right associativity).

(** The object written to the socket, before [JSON.stringify]. *)
Record request : Type := mkRequest {
  req_cmd      : string;
  req_account  : value;
  req_token    : value;
  req_data     : string;
  req_auth_key : option string
}.

(** What a call has done by the time its executor has run up to the
    [setInterval]. *)
Inductive started : Type :=
| Stalled (text : string)
    (* an assert failed: the promise handed to the caller stays pending for
       ever, nothing was sent, no interval was installed *)
| Polling (auth_key : value) (payload : request) (s : Flow.t).
    (* [payload] was sent and the interval runs on state [s] *)

Definition sent (c : started) : list request :=
  match c with Stalled _ => [] | Polling _ payload _ => [payload] end.

Definition promise_of (c : started) : option outcome :=
  match c with Stalled _ => None | Polling _ _ s => Flow.promise s end.

Definition launch (c : checked (value * request * Flow.t)) : started :=
  match c with
  | AssertionError text => Stalled text
  | Passed (auth_key, payload, s) => Polling auth_key payload s
  end.

Section Wrapper.

(** [CryptoJS.AES.encrypt(message, key).toString()] *)
Variable encrypt : value -> value -> string.
(** [CryptoJS.AES.decrypt(cipher, key).toString(CryptoJS.enc.Utf8)];
    [None] when the expression throws. *)
Variable decrypt : value -> value -> option string.
(** [JSON.parse(text)]; [None] when it throws. *)
Variable json_parse : string -> option value.
(** [JSON.stringify(v)] *)
Variable stringify : value -> string.

(** *** authenticate *)

(** [auth.key || uuidv4()], with [fresh] the string [uuidv4()] yields. *)
Definition auth_key_of (a : Auth.t) (fresh : string) : value :=
  or_else (Auth.key a) (Str fresh).

Definition challenge_data_checks (challenge_data : value) : checked unit :=
  assert (truthy challenge_data && truthy (prop challenge_data "key_type")
          && is_string (prop challenge_data "key_type"))
         "missing or invalid challenge_data.key_type" ;;
  assert (truthy challenge_data && truthy (prop challenge_data "challenge")
          && is_string (prop challenge_data "challenge"))
         "missing or invalid challenge_data.challenge".

(** The executor of [authenticate] up to [let uuid = undefined].
    [connected] is what [await isConnected()] yields, [secret] is
    [HAS_options.auth_key_secret]. *)
Definition authenticate_setup (g : globals) (secret : value) (connected : bool)
    (now : Z) (fresh : string)
    (auth : option Auth.t) (app_data challenge_data : value)
  : checked (value * request * Flow.t) :=
  match auth with
  | None => AssertionError "missing or invalid auth.username"
  | Some a =>
      assert (truthy (Auth.username a) && is_string (Auth.username a))
             "missing or invalid auth.username" ;;
      assert (truthy app_data && truthy (prop app_data "name")
              && is_string (prop app_data "name"))
             "missing or invalid app_data.name" ;;
      challenge_data_checks challenge_data ;;
      assert connected "not connected to server" ;;
      let auth_key := auth_key_of a fresh in
      let data :=
        encrypt (Str (stringify (Obj [("token", Auth.token a);
                                      ("app", app_data);
                                      ("challenge", challenge_data)])))
                auth_key in
      let payload :=
        mkRequest CMD.AUTH_REQ (Auth.username a) (Auth.token a) data
                  (if truthy secret then Some (encrypt auth_key secret) else None) in
      Passed (auth_key, payload,
              Flow.mk (requests g)
                      None
                      (option_map (fun t => now + t) (HAS_timeout g))
                      true None [] a)
  end.

Definition authenticate (g : globals) (secret : value) (connected : bool)
    (now : Z) (fresh : string)
    (auth : option Auth.t) (app_data challenge_data : value) : started :=
  launch (authenticate_setup g secret connected now fresh auth app_data challenge_data).

(** The callback of [authenticate] up to its closing expiry check; the
    boolean tells that an exception left the callback, which skips that
    check. *)
Definition authenticate_poll (auth_key : value) (cbWait : bool) (now : Z)
    (s : Flow.t) : Flow.t * bool :=
  if negb (truthy_str (Flow.uuid s)) then
    match getRequest now CMD.AUTH_WAIT None (Flow.store s) with
    | (Some req, rs) =>
        (confirm rs req (Msg.set_key auth_key req) cbWait s, false)
    | (None, rs) => (with_store rs s, false)
    end
  else
    match terminal_lookups Authenticate now (Flow.uuid s) (Flow.store s) with
    | (req_ack, req_nack, req_err, rs) =>
        let s := with_store rs s in
        match req_ack, req_nack, req_err with
        | Some req_ack, _, _ =>
            match decrypt (Msg.data req_ack) auth_key with
            | None => (s, false)
            | Some text =>
                match json_parse text with
                | None => (s, false)
                | Some (Null | Undefined) =>
                    (* [req_ack.data.token] throws inside the [try],
                       after [clearInterval(wait)] *)
                    (clearInterval s, false)
                | Some d =>
                    (settle (Resolved (Msg.set_data d req_ack))
                       (with_auth
                          (Auth.mk (Auth.username (Flow.auth s))
                                   (prop d "token") (prop d "expire") auth_key)
                          (clearInterval s)),
                     false)
                end
            end
        | None, Some req_nack, _ =>
            match decrypt (Msg.data req_nack) auth_key with
            | None => (s, true)
            | Some text =>
                if loose_eq (Flow.uuid s) (Some text)
                then (settle (Rejected req_nack) s, false)
                else (s, false)
            end
        | None, None, Some req_err => (settle (Rejected req_err) s, false)
        | None, None, None => (s, false)
        end
    end.

Definition authenticate_tick (auth_key : value) (cbWait : bool) (now : Z)
    (s : Flow.t) : Flow.t :=
  let '(s, thrown) := authenticate_poll auth_key cbWait now s in
  if thrown then s else check_expired now s.

(** *** broadcast *)

Definition credential_checks (a : Auth.t) : checked unit :=
  assert (truthy (Auth.username a) && is_string (Auth.username a))
         "missing or invalid username" ;;
  assert (truthy (Auth.token a) && is_string (Auth.token a))
         "missing or invalid token" ;;
  assert (truthy (Auth.key a) && is_string (Auth.key a))
         "missing or invalid encryption key".

(** [ops && Array.isArray(ops) && ops.length>0] *)
Definition ops_ok (ops : value) : bool :=
  truthy ops && isArray ops
  && match ops with Arr items => Nat.ltb 0 (List.length items) | _ => false end.

Definition broadcast_setup (g : globals) (connected : bool) (now : Z)
    (auth : option Auth.t) (key_type ops : value)
  : checked (value * request * Flow.t) :=
  match auth with
  | None => AssertionError "missing auth"
  | Some a =>
      credential_checks a ;;
      assert (ops_ok ops) "missing or invalid ops" ;;
      assert connected "not connected to server" ;;
      let data :=
        encrypt (Str (stringify (Obj [("key_type", key_type);
                                      ("ops", ops);
                                      ("broadcast", Bool true)])))
                (Auth.key a) in
      let payload :=
        mkRequest CMD.SIGN_REQ (Auth.username a) (Auth.token a) data None in
      Passed (Auth.key a, payload,
              Flow.mk (requests g)
                      None
                      (option_map (fun t => now + t) (HAS_timeout g))
                      true None [] a)
  end.

Definition broadcast (g : globals) (connected : bool) (now : Z)
    (auth : option Auth.t) (key_type ops : value) : started :=
  launch (broadcast_setup g connected now auth key_type ops).

Definition broadcast_poll (cbWait : bool) (now : Z) (s : Flow.t) : Flow.t * bool :=
  if negb (truthy_str (Flow.uuid s)) then
    match getRequest now CMD.SIGN_WAIT None (Flow.store s) with
    | (Some req, rs) => (confirm rs req req cbWait s, false)
    | (None, rs) => (with_store rs s, false)
    end
  else
    match terminal_lookups Broadcast now (Flow.uuid s) (Flow.store s) with
    | (req_ack, req_nack, req_err, rs) =>
        let s := with_store rs s in
        match req_ack, req_nack, req_err with
        | Some req_ack, _, _ =>
            (settle (Resolved req_ack) (clearInterval s), false)
        | None, Some req_nack, _ =>
            (settle (Rejected req_nack) (clearInterval s), false)
        | None, None, Some req_err =>
            match decrypt (Msg.error req_err) (Auth.key (Flow.auth s)) with
            | None => (clearInterval s, true)
            | Some text => (settle (RejectedError text) (clearInterval s), false)
            end
        | None, None, None => (s, false)
        end
    end.

Definition broadcast_tick (cbWait : bool) (now : Z) (s : Flow.t) : Flow.t :=
  let '(s, thrown) := broadcast_poll cbWait now s in
  if thrown then s else check_expired now s.

(** *** challenge *)

Definition challenge_setup (g : globals) (connected : bool) (now : Z)
    (auth : option Auth.t) (challenge_data : value)
  : checked (value * request * Flow.t) :=
  match auth with
  | None => AssertionError "missing auth"
  | Some a =>
      credential_checks a ;;
      challenge_data_checks challenge_data ;;
      assert connected "not connected to server" ;;
      let data := encrypt (Str (stringify challenge_data)) (Auth.key a) in
      let payload :=
        mkRequest CMD.CHALLENGE_REQ (Auth.username a) (Auth.token a) data None in
      Passed (Auth.key a, payload,
              Flow.mk (requests g)
                      None
                      (option_map (fun t => now + t) (HAS_timeout g))
                      true None [] a)
  end.

Definition challenge (g : globals) (connected : bool) (now : Z)
    (auth : option Auth.t) (challenge_data : value) : started :=
  launch (challenge_setup g connected now auth challenge_data).

Definition challenge_poll (cbWait : bool) (now : Z) (s : Flow.t) : Flow.t * bool :=
  if negb (truthy_str (Flow.uuid s)) then
    match getRequest now CMD.CHALLENGE_WAIT None (Flow.store s) with
    | (Some req, rs) => (confirm rs req req cbWait s, false)
    | (None, rs) => (with_store rs s, false)
    end
  else
    match terminal_lookups Challenge now (Flow.uuid s) (Flow.store s) with
    | (req_ack, req_nack, req_err, rs) =>
        let s := with_store rs s in
        match req_ack, req_nack, req_err with
        | Some req_ack, _, _ =>
            match decrypt (Msg.data req_ack) (Auth.key (Flow.auth s)) with
            | None => (s, false)
            | Some text =>
                match json_parse text with
                | None => (s, false)
                | Some d =>
                    (settle (Resolved (Msg.set_data d req_ack)) (clearInterval s),
                     false)
                end
            end
        | None, Some req_nack, _ =>
            (settle (Rejected req_nack) (clearInterval s), false)
        | None, None, Some req_err =>
            match decrypt (Msg.error req_err) (Auth.key (Flow.auth s)) with
            | None => (clearInterval s, true)
            | Some text => (settle (RejectedError text) (clearInterval s), false)
            end
        | None, None, None => (s, false)
        end
    end.

Definition challenge_tick (cbWait : bool) (now : Z) (s : Flow.t) : Flow.t :=
  let '(s, thrown) := challenge_poll cbWait now s in
  if thrown then s else check_expired now s.

(** *** The three flows side by side *)

(** One run of the flow's callback.  [auth_key] is the constant of the
    same name in [authenticate]; the other two flows read [auth.key]. *)
Definition tick (f : flow_kind) (auth_key : value) (cbWait : bool) (now : Z)
    (s : Flow.t) : Flow.t :=
  match f with
  | Authenticate => authenticate_tick auth_key cbWait now s
  | Broadcast => broadcast_tick cbWait now s
  | Challenge => challenge_tick cbWait now s
  end.

(** The key the flow decrypts with. *)
Definition session_key (f : flow_kind) (auth_key : value) (s : Flow.t) : value :=
  match f with
  | Authenticate => auth_key
  | Broadcast | Challenge => Auth.key (Flow.auth s)
  end.

(** The timer: the callback runs only while the interval is installed. *)
Definition fire (f : flow_kind) (auth_key : value) (cbWait : bool) (now : Z)
    (s : Flow.t) : Flow.t :=
  if Flow.waiting s then tick f auth_key cbWait now s else s.

End Wrapper.

(** A push arriving between two runs of a flow's callback: [onmessage]
    acting on the store the flow polls. *)
Definition receive (m : message) (s : Flow.t) : Flow.t :=
  with_store (requests (onmessage m (mkGlobals true None (Flow.store s)))) s.

(** ** Inputs used by the closed examples *)

Definition wire (cmd : string) (uuid : option string) (expire : option Z)
    (data : value) : message :=
  Msg.mk cmd uuid expire data Undefined None Undefined.

(** An [auth_ack] whose [expire] is the number 0. *)
Definition epoch_ack : message := wire CMD.AUTH_ACK (Some "abc") (Some 0) (Str "x").

(** Three [sign_ack] pushes for the id "abc": one already stored, then a
    duplicated pair. *)
Definition older_ack : message := wire CMD.SIGN_ACK (Some "abc") None (Str "first").
Definition dup_ack : message := wire CMD.SIGN_ACK (Some "abc") None (Str "second").

(** A [sign_ack] for "abc" that expired at 900. *)
Definition stale_ack : message := wire CMD.SIGN_ACK (Some "abc") (Some 900) (Str "late").

Definition idle : globals := mkGlobals true (Some HAS_timeout_default) [].

(** A stand-in codec for the closed examples: the cipher text of [plain]
    under the key [k] is [k ++ ":" ++ plain]; decrypting under another key
    throws.  The parser knows the text [null] and reads any other non-empty
    text as an object holding it as its [token]. *)
Definition toy_encrypt (plain k : value) : string :=
  match plain, k with
  | Str p, Str k => k ++ ":" ++ p
  | _, _ => ""
  end.

Definition toy_decrypt (cipher k : value) : option string :=
  match cipher, k with
  | Str c, Str k =>
      if String.prefix (k ++ ":") c
      then Some (String.substring (String.length k + 1)
                                  (String.length c - (String.length k + 1)) c)
      else None
  | _, _ => None
  end.

Definition toy_parse (text : string) : option value :=
  if String.eqb text "" then None
  else if String.eqb text "null" then Some Null
  else Some (Obj [("token", Str text)]).

Definition toy_stringify (v : value) : string :=
  match v with Str s => s | _ => "{}" end.

(** A caller holding a token and the session key "k". *)
Definition alice : Auth.t := Auth.mk (Str "alice") (Str "T0") Undefined (Str "k").

(** A confirmed flow for the id "abc" whose deadline 500 has passed at
    time 1000, with [pending] in the store. *)
Definition overdue (pending : list message) : Flow.t :=
  Flow.mk pending (Some "abc") (Some 500) true None [] alice.

(** A confirmed flow for the id "abc" with deadline 5000. *)
Definition confirmed (pending : list message) : Flow.t :=
  Flow.mk pending (Some "abc") (Some 5000) true None [] alice.

(** A flow that has sent its request and knows no id yet. *)
Definition fresh_flow (pending : list message) : Flow.t :=
  Flow.mk pending None (Some 5000) true None [] alice.

(** Pushed messages for the id "abc", as the stand-in codec would produce
    them under the key "k" or under a foreign key. *)
Definition auth_wait_abc : message := wire CMD.AUTH_WAIT (Some "abc") (Some 9000) Undefined.
Definition auth_ack_abc : message := wire CMD.AUTH_ACK (Some "abc") None (Str "k:T1").
Definition auth_nack_abc : message := wire CMD.AUTH_NACK (Some "abc") None (Str "k:abc").
Definition challenge_ack_abc : message := wire CMD.CHALLENGE_ACK (Some "abc") None (Str "k:sig").
Definition challenge_ack_foreign : message :=
  wire CMD.CHALLENGE_ACK (Some "abc") None (Str "other:sig").
Definition challenge_nack_abc : message := wire CMD.CHALLENGE_NACK (Some "abc") None Undefined.
Definition sign_nack_foreign : message :=
  wire CMD.SIGN_NACK (Some "abc") None (Str "other:abc").
Definition sign_err_foreign : message :=
  Msg.mk CMD.SIGN_ERR (Some "abc") None Undefined (Str "other:boom") None Undefined.


Definition my_app : value := Obj [("name", Str "demo")].

Definition my_challenge : value :=
  Obj [("key_type", Str "posting"); ("challenge", Str "hello")].

(** A caller that has not authenticated yet. *)
Definition newcomer : Auth.t := Auth.mk (Str "alice") Undefined Undefined Undefined.

(** ** Options, status and the socket *)

Definition HAS_SERVER : string := "wss://hive-auth.arcange.eu/".

(** [HAS_options], and the object handed to [setOptions]. *)
Record options : Type := mkOptions {
  host            : value;
  auth_key_secret : value
}.

Definition HAS_options_default : options := mkOptions (Str HAS_SERVER) Undefined.

(** What [setOptions] throws: a failed [assert], or the [TypeError] of
    calling [match] on a host that has no such method. *)
Inductive thrown : Type :=
| AssertionFailed (text : string)
| TypeError.

Inductive configured : Type :=
| Configured (o : options)
| Threw (e : thrown).

(** [h.match("^((ws|wss)?:\/\/)")] on a string [h]: the scheme group is
    optional, so the pattern is met by the prefixes [ws://], [wss://] and
    [://]. *)
Definition host_matches (h : string) : bool :=
  String.prefix "ws://" h || String.prefix "wss://" h || String.prefix "://" h.

(** [options.auth_key_secret===undefined ||
     (typeof(options.auth_key_secret)=="string" && options.auth_key_secret!="")] *)
Definition secret_ok (v : value) : bool :=
  match v with
  | Undefined => true
  | Str s => negb (String.eqb s "")
  | _ => false
  end.

(** [setOptions(options)] on the current [HAS_options]. *)
Definition setOptions (given current : options) : configured :=
  match host given with
  | Undefined | Str _ =>
      if match host given with Str h => host_matches h | _ => true end then
        if secret_ok (auth_key_secret given) then
          Configured
            (mkOptions
               (if truthy (host given) then host given else host current)
               (if truthy (auth_key_secret given)
                then auth_key_secret given else auth_key_secret current))
        else Threw (AssertionFailed "invalid auth_key_secret")
      else Threw (AssertionFailed "invalid host URL")
  | _ => Threw TypeError
  end.

(** [status()] *)
Record status_report : Type := mkStatus {
  status_host      : value;
  status_connected : bool;
  status_timeout   : option Z
}.

Definition status (o : options) (g : globals) : status_report :=
  mkStatus (host o) (HAS_connected g) (HAS_timeout g).

(** The address [startWebsocket] opens its socket to:
    [new WebSocket(HAS_SERVER)], whatever [HAS_options] holds. *)
Definition startWebsocket_url (o : options) : string := HAS_SERVER.

(** ** What a run of a callback looks up *)

(** The entries the lookups of one run match: the flow's [*_wait] kind
    while it knows no id, its ack, nack and err kinds under its id afterwards. *)
Definition looked_up (f : flow_kind) (uuid : option string) (o : message) : bool :=
  if truthy_str uuid
  then matching (ack_kind f) uuid o || matching (nack_kind f) uuid o
       || matching (err_kind f) uuid o
  else matching (wait_kind f) None o.


(** ** The pending message store: results *)

(** A message is live at [now] when it has no [expire], a zero one, or one
    that is not before [now]. *)
Definition live (now : Z) (o : message) : Prop :=
  forall e, Msg.expire o = Some e -> e = 0 \/ now <= e.

Lemma not_expired_live now o : not_expired now o = true <-> live now o.
Proof.
  unfold not_expired, live, truthy_num.
  destruct (Msg.expire o) as [e|]; simpl.
  - destruct (Z.eqb_spec e 0) as [->|Hne]; simpl.
    + split; [intros _ e' [= <-]; now left | reflexivity].
    + rewrite Z.leb_le. split.
      * intros H e' [= <-]. now right.
      * intros H. destruct (H e eq_refl); [contradiction | assumption].
  - split; [intros _ e' [=] | reflexivity].
Qed.

Lemma matching_pair type u o :
  u <> "" ->
  matching type (Some u) o = true <-> Msg.cmd o = type /\ Msg.uuid o = Some u.
Proof.
  intros Hu. unfold matching, truthy_str, loose_eq.
  destruct (String.eqb_spec u "") as [|_]; [contradiction|]. simpl.
  rewrite andb_true_iff, String.eqb_eq.
  destruct (Msg.uuid o) as [x|].
  - rewrite String.eqb_eq. split; intros [H1 H2]; split; congruence.
  - split; intros [H1 H2]; discriminate.
Qed.

Lemma matching_kind type uuid o :
  truthy_str uuid = false ->
  matching type uuid o = true <-> Msg.cmd o = type.
Proof.
  intros Hu. unfold matching. rewrite Hu, andb_true_r. apply String.eqb_eq.
Qed.

Lemma find_absent {A : Type} (f : A -> bool) (l : list A) :
  (forall x, In x l -> f x = false) -> find f l = None.
Proof.
  induction l as [|a l IH]; simpl; intros H; [reflexivity|].
  rewrite (H a (or_introl eq_refl)). apply IH. intros x Hx. apply H. now right.
Qed.

Lemma find_skips {A : Type} (f : A -> bool) (l1 l2 : list A) :
  (forall x, In x l1 -> f x = false) -> find f (l1 ++ l2) = find f l2.
Proof.
  induction l1 as [|a l1 IH]; simpl; intros H; [reflexivity|].
  rewrite (H a (or_introl eq_refl)). apply IH. intros x Hx. apply H. now right.
Qed.

(** The two ways [getRequest] can end. *)
Lemma getRequest_found now type uuid reqs m :
  fst (getRequest now type uuid reqs) = Some m ->
  In m reqs /\ not_expired now m = true /\ matching type uuid m = true
  /\ snd (getRequest now type uuid reqs)
     = filter (not_taken type uuid m) (filter (not_expired now) reqs).
Proof.
  unfold getRequest.
  destruct (find (matching type uuid) (filter (not_expired now) reqs)) as [r|] eqn:F;
    simpl; [|discriminate].
  intros [= ->]. apply find_some in F. destruct F as [Hin Hm].
  apply filter_In in Hin. tauto.
Qed.

Lemma getRequest_missed now type uuid reqs :
  fst (getRequest now type uuid reqs) = None ->
  snd (getRequest now type uuid reqs) = filter (not_expired now) reqs
  /\ forall o, In o (filter (not_expired now) reqs) -> matching type uuid o = false.
Proof.
  unfold getRequest.
  destruct (find (matching type uuid) (filter (not_expired now) reqs)) as [r|] eqn:F;
    simpl; [discriminate|].
  intros _. split; [reflexivity|]. intros o Ho. exact (find_none _ _ F o Ho).
Qed.

(** Whatever a lookup leaves in the store was there before and is live. *)
Lemma getRequest_keeps now type uuid reqs o :
  In o (snd (getRequest now type uuid reqs)) -> In o reqs /\ not_expired now o = true.
Proof.
  unfold getRequest.
  destruct (find (matching type uuid) (filter (not_expired now) reqs)) as [r|];
    simpl; intros H.
  - apply filter_In in H. destruct H as [H _]. now apply filter_In in H.
  - now apply filter_In in H.
Qed.

Lemma loose_eq_eq a b : loose_eq a b = true -> a = b.
Proof.
  destruct a as [x|], b as [y|]; simpl; try discriminate; [|reflexivity].
  intros H. apply String.eqb_eq in H. now subst.
Qed.

Lemma loose_eq_refl a : loose_eq a a = true.
Proof. destruct a as [x|]; simpl; [apply String.eqb_refl | reflexivity]. Qed.

(** A message carrying the kind and id of a lookup matches it. *)
Lemma same_pair_matching type uuid o :
  Msg.cmd o = type -> Msg.uuid o = uuid -> matching type uuid o = true.
Proof.
  intros <- <-. unfold matching. rewrite String.eqb_refl, loose_eq_refl.
  now destruct (truthy_str (Msg.uuid o)).
Qed.

(** Nothing that a lookup would match is left in the store after it. *)
Lemma getRequest_clears_matching now type uuid reqs o :
  In o (snd (getRequest now type uuid reqs)) -> matching type uuid o = false.
Proof.
  intros Hin.
  destruct (fst (getRequest now type uuid reqs)) as [m|] eqn:F.
  - destruct (getRequest_found _ _ _ _ _ F) as (_ & _ & Hm & Hs).
    rewrite Hs in Hin. apply filter_In in Hin. destruct Hin as [_ Hnt].
    unfold not_taken in Hnt. apply negb_true_iff in Hnt.
    unfold matching in *. destruct (truthy_str uuid); [|exact Hnt].
    apply andb_true_iff in Hm. destruct Hm as [_ Hm]. apply loose_eq_eq in Hm.
    now rewrite Hm in Hnt.
  - destruct (getRequest_missed _ _ _ _ F) as [Hs Hall].
    rewrite Hs in Hin. exact (Hall o Hin).
Qed.

(** After a lookup by a non-empty id no entry with that kind and id is left,
    found or not. *)
Lemma getRequest_clears_pair now type u reqs o :
  u <> "" ->
  In o (snd (getRequest now type (Some u) reqs)) ->
  ~ (Msg.cmd o = type /\ Msg.uuid o = Some u).
Proof.
  intros Hu Hin Hpair.
  destruct (fst (getRequest now type (Some u) reqs)) as [m|] eqn:F.
  - destruct (getRequest_found _ _ _ _ _ F) as (_ & _ & Hm & Hs).
    rewrite Hs in Hin. apply filter_In in Hin. destruct Hin as [_ Hnt].
    apply (matching_pair type u m Hu) in Hm. destruct Hm as [_ Hmu].
    destruct Hpair as [Hc Ho].
    unfold not_taken, truthy_str, loose_eq in Hnt.
    destruct (String.eqb_spec u "") as [|_]; [contradiction|]. simpl in Hnt.
    rewrite Hc, Ho, Hmu, !String.eqb_refl in Hnt. discriminate.
  - destruct (getRequest_missed _ _ _ _ F) as [Hs Hall].
    rewrite Hs in Hin. specialize (Hall o Hin).
    apply (matching_pair type u o Hu) in Hpair. congruence.
Qed.

(** C3, as stated, fails: an entry whose [expire] is the number 0 passes
    [!o.expire] and is handed out at any later time. *)
Lemma getRequest_returns_epoch_expire :
  exists m e,
    fst (getRequest 1000 CMD.AUTH_ACK (Some "abc") [epoch_ack]) = Some m
    /\ Msg.expire m = Some e /\ e < 1000.
Proof.
  exists epoch_ack, 0. repeat split.
Qed.

(** C3 (amended): the message a lookup returns carries no [expire], the
    falsy [expire] 0, or an [expire] not before the time of the lookup; and
    every stored entry with a non-zero [expire] before that time is gone from
    the store after the lookup, so it is neither returned nor kept. *)
Theorem getRequest_returns_live now type uuid reqs :
  (forall m, fst (getRequest now type uuid reqs) = Some m ->
             In m reqs /\ live now m)
  /\ (forall o e, In o reqs -> Msg.expire o = Some e -> e <> 0 -> e < now ->
                  fst (getRequest now type uuid reqs) <> Some o
                  /\ ~ In o (snd (getRequest now type uuid reqs))).
Proof.
  split.
  - intros m F. destruct (getRequest_found _ _ _ _ _ F) as (Hin & Hl & _).
    split; [assumption | now apply not_expired_live].
  - intros o e _ He Hne Hlt.
    assert (Hdead : not_expired now o = false).
    { destruct (not_expired now o) eqn:E; [|reflexivity].
      apply not_expired_live in E. destruct (E e He); [contradiction | lia]. }
    split.
    + intros F. destruct (getRequest_found _ _ _ _ _ F) as (_ & Hl & _). congruence.
    + intros Hin. apply getRequest_keeps in Hin. destruct Hin as [_ Hl]. congruence.
Qed.

Lemma getRequest_returns_live_witness :
  (In dup_ack [wire CMD.SIGN_ACK (Some "abc") (Some 900) Null; dup_ack]
   /\ live 1000 dup_ack)
  /\ ~ In (wire CMD.SIGN_ACK (Some "abc") (Some 900) Null)
          (snd (getRequest 1000 CMD.SIGN_ACK (Some "abc")
                  [wire CMD.SIGN_ACK (Some "abc") (Some 900) Null; dup_ack])).
Proof.
  pose proof (getRequest_returns_live 1000 CMD.SIGN_ACK (Some "abc")
                [wire CMD.SIGN_ACK (Some "abc") (Some 900) Null; dup_ack]) as [H1 H2].
  split.
  - apply H1. reflexivity.
  - apply (H2 _ 900); [now left | reflexivity | lia | lia].
Defined.

(** C4, as stated, fails: with an older live entry for the same kind and
    id in the store, the lookup after two further deliveries returns that
    older entry, which is neither of the two; and two deliveries that have
    expired by the time of the lookup yield nothing. *)
Lemma getRequest_returns_older_duplicate :
  (let g := onmessage dup_ack (onmessage dup_ack (mkGlobals true None [older_ack])) in
   fst (getRequest 1000 CMD.SIGN_ACK (Some "abc") (requests g)) = Some older_ack
   /\ older_ack <> dup_ack)
  /\ (let g := onmessage stale_ack (onmessage stale_ack idle) in
      requests g = [stale_ack; stale_ack]
      /\ fst (getRequest 1000 CMD.SIGN_ACK (Some "abc") (requests g)) = None).
Proof.
  split; split; try reflexivity. discriminate.
Qed.

(** C4 (amended): two messages with the same kind and id are delivered.
    For every store, a single lookup for the pair leaves no entry with that
    kind and id in the store, so neither of the two remains, and a second
    lookup for the pair returns nothing.  What the first lookup returns is
    the first live stored message matching it: there is one whenever the
    first of the two is of a stored kind and live, and it is that message
    when the store held no live match before. *)
Theorem getRequest_coalesces now g m1 m2 type uuid :
  Msg.cmd m1 = type -> Msg.uuid m1 = uuid ->
  Msg.cmd m2 = type -> Msg.uuid m2 = uuid ->
  let store := requests (onmessage m2 (onmessage m1 g)) in
  let once := getRequest now type uuid store in
  (forall o, In o (snd once) -> ~ (Msg.cmd o = type /\ Msg.uuid o = uuid))
  /\ ~ In m1 (snd once) /\ ~ In m2 (snd once)
  /\ (forall now', fst (getRequest now' type uuid (snd once)) = None)
  /\ (forall m, fst once = Some m ->
                In m store /\ live now m /\ Msg.cmd m = type
                /\ (truthy_str uuid = true -> Msg.uuid m = uuid))
  /\ (is_stored_kind type = true -> live now m1 ->
      exists m, fst once = Some m
                /\ ((forall o, In o (requests g) -> live now o ->
                                matching type uuid o = false) ->
                    m = m1)).
Proof.
  intros Hc1 Hu1 Hc2 Hu2 store once.
  assert (Hclear : forall o, In o (snd once) ->
                     ~ (Msg.cmd o = type /\ Msg.uuid o = uuid)).
  { intros o Hin [Hc Hi]. apply getRequest_clears_matching in Hin.
    rewrite (same_pair_matching type uuid o Hc Hi) in Hin. discriminate. }
  split; [exact Hclear|].
  split; [intros Hin; apply (Hclear m1 Hin); now split|].
  split; [intros Hin; apply (Hclear m2 Hin); now split|].
  split; [|split].
  - intros now'. unfold getRequest. rewrite find_absent; [reflexivity|].
    intros o Ho. apply filter_In in Ho. destruct Ho as [Ho _].
    now apply getRequest_clears_matching in Ho.
  - intros m F. destruct (getRequest_found _ _ _ _ _ F) as (Hin & Hl & Hm & _).
    split; [exact Hin|]. split; [now apply not_expired_live|].
    unfold matching in Hm. apply andb_true_iff in Hm. destruct Hm as [Hc Hi].
    apply String.eqb_eq in Hc. split; [exact Hc|].
    intros Ht. rewrite Ht in Hi. now apply loose_eq_eq.
  - intros Hk Hl1.
    assert (Hstore : store = (requests g ++ [m1; m2])%list).
    { subst store. unfold onmessage.
      assert (Hne : forall m, Msg.cmd m = type ->
                String.eqb (Msg.cmd m) "" = false
                /\ String.eqb (Msg.cmd m) CMD.CONNECTED = false
                /\ is_stored_kind (Msg.cmd m) = true).
      { intros m Hm. rewrite Hm. repeat split; [| |assumption].
        - destruct (String.eqb_spec type "") as [E|]; [|reflexivity].
          rewrite E in Hk. cbv in Hk. discriminate Hk.
        - destruct (String.eqb_spec type CMD.CONNECTED) as [E|]; [|reflexivity].
          rewrite E in Hk. cbv in Hk. discriminate Hk. }
      destruct (Hne m1 Hc1) as (-> & -> & ->). simpl.
      destruct (Hne m2 Hc2) as (-> & -> & ->). simpl.
      now rewrite <- app_assoc. }
    assert (Hm1 : matching type uuid m1 = true)
      by now apply same_pair_matching.
    apply not_expired_live in Hl1.
    destruct (fst once) as [m|] eqn:F.
    + exists m. split; [reflexivity|].
      intros Hfresh. subst once. unfold getRequest in F.
      rewrite Hstore, filter_app in F. simpl in F. rewrite Hl1 in F.
      rewrite find_skips in F.
      * simpl in F. rewrite Hm1 in F. simpl in F. congruence.
      * intros o Ho. apply filter_In in Ho. destruct Ho as [Ho Hlo].
        apply Hfresh; [exact Ho | now apply not_expired_live].
    + exfalso. destruct (getRequest_missed _ _ _ _ F) as [_ Hall].
      assert (Hin : In m1 (filter (not_expired now) store)).
      { apply filter_In. split; [|exact Hl1].
        rewrite Hstore. apply in_or_app. right. now left. }
      specialize (Hall m1 Hin). congruence.
Qed.

Lemma getRequest_coalesces_witness :
  ~ In dup_ack
       (snd (getRequest 1000 CMD.SIGN_ACK (Some "abc")
               (requests (onmessage dup_ack (onmessage older_ack idle)))))
  /\ exists m,
       fst (getRequest 1000 CMD.SIGN_ACK (Some "abc")
              (requests (onmessage dup_ack (onmessage older_ack idle)))) = Some m.
Proof.
  pose proof (getRequest_coalesces 1000 idle older_ack dup_ack CMD.SIGN_ACK
                (Some "abc") eq_refl eq_refl eq_refl eq_refl)
    as (_ & _ & H2 & _ & _ & H5).
  split; [exact H2|].
  destruct H5 as (m & Hm & _); [reflexivity | intros e [=] |].
  exists m. exact Hm.
Defined.

(** C10: a lookup by kind alone (no id given) that finds a message leaves
    no entry of that kind in the store, whatever id the entry carries: what
    remains is exactly the live entries of the other kinds. *)
Theorem getRequest_by_kind_takes_all now type reqs m :
  fst (getRequest now type None reqs) = Some m ->
  Msg.cmd m = type
  /\ snd (getRequest now type None reqs)
     = filter (fun o => negb (String.eqb (Msg.cmd o) type))
              (filter (not_expired now) reqs)
  /\ (forall o, In o reqs -> Msg.cmd o = type ->
                ~ In o (snd (getRequest now type None reqs))).
Proof.
  intros F. destruct (getRequest_found _ _ _ _ _ F) as (_ & _ & Hm & Hs).
  apply matching_kind in Hm; [|reflexivity].
  assert (Hrest : snd (getRequest now type None reqs)
                  = filter (fun o => negb (String.eqb (Msg.cmd o) type))
                           (filter (not_expired now) reqs)).
  { rewrite Hs. apply filter_ext. intros o. unfold not_taken. simpl.
    now rewrite andb_true_r. }
  repeat split; try assumption.
  intros o _ Hc Hin. rewrite Hrest in Hin. apply filter_In in Hin.
  destruct Hin as [_ Hne]. rewrite Hc, String.eqb_refl in Hne. discriminate.
Qed.

Lemma getRequest_by_kind_takes_all_witness :
  ~ In (wire CMD.AUTH_WAIT (Some "other") None Null)
       (snd (getRequest 1000 CMD.AUTH_WAIT None
               [wire CMD.AUTH_WAIT (Some "abc") None Null;
                wire CMD.AUTH_ACK (Some "abc") None Null;
                wire CMD.AUTH_WAIT (Some "other") None Null])).
Proof.
  apply (getRequest_by_kind_takes_all 1000 CMD.AUTH_WAIT
           [wire CMD.AUTH_WAIT (Some "abc") None Null;
            wire CMD.AUTH_ACK (Some "abc") None Null;
            wire CMD.AUTH_WAIT (Some "other") None Null]
           (wire CMD.AUTH_WAIT (Some "abc") None Null)).
  - reflexivity.
  - right. right. now left.
  - reflexivity.
Defined.

(** ** The polling callbacks: results *)

Lemma settle_pending o s :
  Flow.promise s = None -> Flow.promise (settle o s) = Some o.
Proof. unfold settle. intros ->. reflexivity. Qed.

(** The closing expiry check never replaces a settlement. *)
Lemma check_expired_settled now s o :
  Flow.promise s = Some o -> Flow.promise (check_expired now s) = Some o.
Proof.
  unfold check_expired, settle. intros H.
  destruct (deadline_passed now (Flow.expire s)); simpl; rewrite H; simpl;
    (reflexivity || exact H).
Qed.

Lemma check_expired_pending now s :
  Flow.promise s = None ->
  Flow.promise (check_expired now s)
  = if deadline_passed now (Flow.expire s) then Some (RejectedError "expired") else None.
Proof.
  unfold check_expired, settle. intros H.
  destruct (deadline_passed now (Flow.expire s)); simpl; rewrite H; reflexivity.
Qed.

Lemma check_expired_early now s :
  deadline_passed now (Flow.expire s) = false -> check_expired now s = s.
Proof. unfold check_expired. intros ->. reflexivity. Qed.

(** The three lookups, one after the other. *)
Lemma terminal_lookups_steps f now uuid rs req_ack req_nack req_err rs' :
  terminal_lookups f now uuid rs = (req_ack, req_nack, req_err, rs') ->
  let r1 := getRequest now (ack_kind f) uuid rs in
  let r2 := getRequest now (nack_kind f) uuid (snd r1) in
  let r3 := getRequest now (err_kind f) uuid (snd r2) in
  req_ack = fst r1 /\ req_nack = fst r2 /\ req_err = fst r3 /\ rs' = snd r3.
Proof.
  unfold terminal_lookups.
  destruct (getRequest now (ack_kind f) uuid rs) as [a r1] eqn:E1.
  destruct (getRequest now (nack_kind f) uuid r1) as [n r2] eqn:E2.
  destruct (getRequest now (err_kind f) uuid r2) as [e r3] eqn:E3.
  intros [= <- <- <- <-]. simpl. rewrite E2. simpl. rewrite E3. simpl. tauto.
Qed.

(** No message of a kind and id that was looked up survives the three
    lookups. *)
Lemma terminal_lookups_clear f now u rs req_ack req_nack req_err rs' o :
  u <> "" ->
  terminal_lookups f now (Some u) rs = (req_ack, req_nack, req_err, rs') ->
  In o rs' ->
  Msg.uuid o = Some u ->
  Msg.cmd o <> ack_kind f /\ Msg.cmd o <> nack_kind f /\ Msg.cmd o <> err_kind f.
Proof.
  intros Hu H Hin Ho.
  apply terminal_lookups_steps in H. cbv zeta in H.
  destruct H as (_ & _ & _ & ->).
  pose proof (getRequest_clears_pair _ _ _ _ _ Hu Hin) as H3.
  apply getRequest_keeps in Hin. destruct Hin as [Hin _].
  pose proof (getRequest_clears_pair _ _ _ _ _ Hu Hin) as H2.
  apply getRequest_keeps in Hin. destruct Hin as [Hin _].
  pose proof (getRequest_clears_pair _ _ _ _ _ Hu Hin) as H1.
  repeat split; intros Hc; [apply H1 | apply H2 | apply H3]; now split.
Qed.

(** A message one of the three lookups returned is no longer stored. *)
Lemma terminal_lookups_consumed f now u rs req_ack req_nack req_err rs' m :
  u <> "" ->
  terminal_lookups f now (Some u) rs = (req_ack, req_nack, req_err, rs') ->
  req_ack = Some m \/ req_nack = Some m \/ req_err = Some m ->
  ~ In m rs'.
Proof.
  intros Hu Hl Hm Hin.
  pose proof (terminal_lookups_steps _ _ _ _ _ _ _ _ Hl) as Hs.
  cbv zeta in Hs. destruct Hs as (Ha & Hn & He & _).
  assert (Hpair : forall type reqs, fst (getRequest now type (Some u) reqs) = Some m ->
                    Msg.cmd m = type /\ Msg.uuid m = Some u).
  { intros type reqs F. apply getRequest_found in F.
    destruct F as (_ & _ & F & _). now apply (matching_pair type u m Hu) in F. }
  destruct Hm as [Hm | [Hm | Hm]]; rewrite Hm in *.
  - symmetry in Ha. apply Hpair in Ha. destruct Ha as [Hc Hi].
    destruct (terminal_lookups_clear _ _ _ _ _ _ _ _ m Hu Hl Hin Hi) as (Hx & _).
    now apply Hx.
  - symmetry in Hn. apply Hpair in Hn. destruct Hn as [Hc Hi].
    destruct (terminal_lookups_clear _ _ _ _ _ _ _ _ m Hu Hl Hin Hi) as (_ & Hx & _).
    now apply Hx.
  - symmetry in He. apply Hpair in He. destruct He as [Hc Hi].
    destruct (terminal_lookups_clear _ _ _ _ _ _ _ _ m Hu Hl Hin Hi) as (_ & _ & Hx).
    now apply Hx.
Qed.

Section Callbacks.

Variable decrypt : value -> value -> option string.
Variable json_parse : string -> option value.

Ltac enter_confirmed T Hl :=
  unfold tick, authenticate_tick, authenticate_poll,
         broadcast_tick, broadcast_poll, challenge_tick, challenge_poll;
  rewrite T; cbn [negb]; rewrite Hl; cbv zeta;
  repeat match goal with
         | |- context [Flow.uuid (with_store ?rs ?s)] =>
             change (Flow.uuid (with_store rs s)) with (Flow.uuid s)
         | |- context [Flow.auth (with_store ?rs ?s)] =>
             change (Flow.auth (with_store rs s)) with (Flow.auth s)
         end.

Lemma phase_confirmed s : phase_of s = Confirmed -> truthy_str (Flow.uuid s) = true.
Proof. unfold phase_of. destruct (truthy_str (Flow.uuid s)); [reflexivity|discriminate]. Qed.


(** C1 (amended): in a run of the callback of a confirmed flow whose
    promise is still pending, a terminal message that the run accepts settles
    the promise, whether or not the deadline has passed: an ack (decoded
    where the flow decodes it), else a nack (verified where the flow verifies
    it), else an err (with its text decrypted where the flow decrypts it).
    The expiry outcome is what the run yields when the three lookups return
    nothing and the deadline has passed. *)
Theorem accepted_message_settles_first f auth_key cbWait now s
    req_ack req_nack req_err rs :
  phase_of s = Confirmed ->
  Flow.promise s = None ->
  terminal_lookups f now (Flow.uuid s) (Flow.store s)
  = (req_ack, req_nack, req_err, rs) ->
  let key := session_key f auth_key s in
  let s' := tick decrypt json_parse f auth_key cbWait now s in
  match f with
  | Authenticate =>
      (forall a text d,
          req_ack = Some a ->
          decrypt (Msg.data a) key = Some text -> json_parse text = Some d ->
          d <> Null -> d <> Undefined ->
          Flow.promise s' = Some (Resolved (Msg.set_data d a)))
      /\ (forall n,
             req_ack = None -> req_nack = Some n ->
             decrypt (Msg.data n) key = Flow.uuid s ->
             Flow.promise s' = Some (Rejected n))
      /\ (forall e,
             req_ack = None -> req_nack = None -> req_err = Some e ->
             Flow.promise s' = Some (Rejected e))
  | Broadcast =>
      (forall a, req_ack = Some a -> Flow.promise s' = Some (Resolved a))
      /\ (forall n,
             req_ack = None -> req_nack = Some n ->
             Flow.promise s' = Some (Rejected n))
      /\ (forall e text,
             req_ack = None -> req_nack = None -> req_err = Some e ->
             decrypt (Msg.error e) key = Some text ->
             Flow.promise s' = Some (RejectedError text))
  | Challenge =>
      (forall a text d,
          req_ack = Some a ->
          decrypt (Msg.data a) key = Some text -> json_parse text = Some d ->
          Flow.promise s' = Some (Resolved (Msg.set_data d a)))
      /\ (forall n,
             req_ack = None -> req_nack = Some n ->
             Flow.promise s' = Some (Rejected n))
      /\ (forall e text,
             req_ack = None -> req_nack = None -> req_err = Some e ->
             decrypt (Msg.error e) key = Some text ->
             Flow.promise s' = Some (RejectedError text))
  end
  /\ (req_ack = None -> req_nack = None -> req_err = None ->
      Flow.promise s'
      = if deadline_passed now (Flow.expire s)
        then Some (RejectedError "expired") else None).
Proof.
  intros Hph Hp Hl key s'. subst key s'. apply phase_confirmed in Hph.
  split.
  - destruct f; cbn [session_key]; (split; [|split]).
    + intros a text d -> Hd Hj Hn Hu. enter_confirmed Hph Hl.
      rewrite Hd, Hj.
      destruct d; try congruence;
        apply check_expired_settled, settle_pending; exact Hp.
    + intros n -> -> Hd. enter_confirmed Hph Hl.
      destruct (Flow.uuid s) as [u|] eqn:U; [|discriminate Hph].
      rewrite Hd. cbn [loose_eq]. rewrite String.eqb_refl.
      apply check_expired_settled, settle_pending. exact Hp.
    + intros e -> -> ->. enter_confirmed Hph Hl.
      apply check_expired_settled, settle_pending. exact Hp.
    + intros a ->. enter_confirmed Hph Hl.
      apply check_expired_settled, settle_pending. exact Hp.
    + intros n -> ->. enter_confirmed Hph Hl.
      apply check_expired_settled, settle_pending. exact Hp.
    + intros e text -> -> -> Hd. enter_confirmed Hph Hl. rewrite Hd.
      apply check_expired_settled, settle_pending. exact Hp.
    + intros a text d -> Hd Hj. enter_confirmed Hph Hl. rewrite Hd, Hj.
      apply check_expired_settled, settle_pending. exact Hp.
    + intros n -> ->. enter_confirmed Hph Hl.
      apply check_expired_settled, settle_pending. exact Hp.
    + intros e text -> -> -> Hd. enter_confirmed Hph Hl. rewrite Hd.
      apply check_expired_settled, settle_pending. exact Hp.
  - intros -> -> ->.
    destruct f; enter_confirmed Hph Hl; now rewrite check_expired_pending.
Qed.

Lemma check_expired_keeps now s :
  Flow.store (check_expired now s) = Flow.store s
  /\ Flow.uuid (check_expired now s) = Flow.uuid s
  /\ Flow.expire (check_expired now s) = Flow.expire s
  /\ Flow.notified (check_expired now s) = Flow.notified s
  /\ Flow.auth (check_expired now s) = Flow.auth s.
Proof.
  unfold check_expired, settle, clearInterval.
  destruct (deadline_passed now (Flow.expire s)); [|tauto].
  simpl. destruct (Flow.promise s); simpl; tauto.
Qed.


(** C5 (amended): in a run of the callback whose ack lookup found
    nothing, a nack found for the flow's id is handled as follows.  In
    [authenticate] it rejects the promise exactly when its [data] decrypts,
    under the session key, to that id; otherwise the nack is gone from the
    store, the promise is not settled by it and, the deadline not being
    reached, the flow goes on polling.  In [broadcast] and [challenge] it
    rejects the promise and stops the polling, whatever decryption would
    say. *)
Theorem nack_verified_only_by_authenticate f auth_key cbWait now s u n req_err rs :
  Flow.uuid s = Some u -> u <> "" ->
  Flow.promise s = None ->
  terminal_lookups f now (Some u) (Flow.store s) = (None, Some n, req_err, rs) ->
  let s' := tick decrypt json_parse f auth_key cbWait now s in
  match f with
  | Authenticate =>
      (decrypt (Msg.data n) auth_key = Some u ->
       Flow.promise s' = Some (Rejected n))
      /\ (decrypt (Msg.data n) auth_key <> Some u ->
          Flow.promise s' <> Some (Rejected n)
          /\ ~ In n (Flow.store s')
          /\ (deadline_passed now (Flow.expire s) = false ->
              Flow.promise s' = None /\ Flow.waiting s' = Flow.waiting s))
  | Broadcast | Challenge =>
      Flow.promise s' = Some (Rejected n) /\ Flow.waiting s' = false
  end.
Proof.
  intros U Hu Hp Hl s'.
  assert (T : truthy_str (Flow.uuid s) = true).
  { rewrite U. simpl. destruct (String.eqb_spec u ""); [contradiction|reflexivity]. }
  assert (Hgone : ~ In n rs).
  { apply (terminal_lookups_consumed _ _ _ _ _ _ _ _ n Hu Hl). right. now left. }
  rewrite <- U in Hl. subst s'.
  destruct f; enter_confirmed T Hl.
  - split.
    + intros Hd. rewrite Hd, U. cbn [loose_eq]. rewrite String.eqb_refl.
      apply check_expired_settled, settle_pending. exact Hp.
    + intros Hd. destruct (decrypt (Msg.data n) auth_key) as [text|] eqn:D.
      * rewrite U. cbn [loose_eq].
        destruct (String.eqb_spec u text) as [->|Hne]; [congruence|].
        destruct (check_expired_keeps now (with_store rs s)) as (Hst & _).
        rewrite check_expired_pending by exact Hp.
        change (Flow.expire (with_store rs s)) with (Flow.expire s).
        split; [|split].
        -- destruct (deadline_passed now (Flow.expire s)); discriminate.
        -- rewrite Hst. exact Hgone.
        -- intros He. rewrite He, check_expired_early by exact He. now split.
      * split; [|split].
        -- simpl. rewrite Hp. discriminate.
        -- exact Hgone.
        -- intros _. split; [exact Hp | reflexivity].
  - split.
    + apply check_expired_settled, settle_pending. exact Hp.
    + unfold check_expired, settle, clearInterval, with_store. simpl.
      rewrite Hp. simpl.
      destruct (deadline_passed now (Flow.expire s)); reflexivity.
  - split.
    + apply check_expired_settled, settle_pending. exact Hp.
    + unfold check_expired, settle, clearInterval, with_store. simpl.
      rewrite Hp. simpl.
      destruct (deadline_passed now (Flow.expire s)); reflexivity.
Qed.


End Callbacks.

(** ** The entry points: results *)

Section EntryPoints.

Variable encrypt : value -> value -> string.
Variable stringify : value -> string.

(** C2 (the code at the input the claim is about): with a valid credential
    and a valid app descriptor but no challenge descriptor, the assert on
    [challenge_data.key_type] fails: nothing is sent, no polling starts and
    the promise handed to the caller is left pending. *)
Theorem authenticate_requires_challenge_data g secret connected now fresh a app_data :
  truthy (Auth.username a) = true -> is_string (Auth.username a) = true ->
  truthy app_data = true ->
  truthy (prop app_data "name") = true -> is_string (prop app_data "name") = true ->
  let call := authenticate encrypt stringify g secret connected now fresh
                           (Some a) app_data Undefined in
  call = Stalled "missing or invalid challenge_data.key_type"
  /\ sent call = [] /\ promise_of call = None.
Proof.
  intros H1 H2 H3 H4 H5 call. subst call.
  unfold authenticate, authenticate_setup.
  rewrite H1, H2, H3, H4, H5. simpl. repeat split.
Qed.

(** C7 (the code at the input the claim is about): [broadcast] with an
    empty array of operations sends nothing; an assert fails inside the
    [async] executor, so no polling starts and the promise handed to the
    caller is never rejected: it stays pending. *)
Theorem broadcast_empty_ops_stalls g connected now auth key_type :
  let call := broadcast encrypt stringify g connected now auth key_type (Arr []) in
  (sent call = [] /\ promise_of call = None /\ exists text, call = Stalled text)
  /\ broadcast encrypt stringify g connected now (Some alice) key_type (Arr [])
     = Stalled "missing or invalid ops".
Proof.
  intros call. split; [|reflexivity].
  subst call. unfold broadcast, broadcast_setup.
  destruct auth as [a|]; [|simpl; eauto].
  unfold credential_checks, assert, and_then.
  destruct (truthy (Auth.username a) && is_string (Auth.username a));
    [|simpl; eauto].
  destruct (truthy (Auth.token a) && is_string (Auth.token a)); [|simpl; eauto].
  destruct (truthy (Auth.key a) && is_string (Auth.key a)); simpl; eauto.
Qed.


End EntryPoints.

(** ** Closed instances *)

(** C1, as stated, fails: in each of the three flows the deadline 500 has
    passed at time 1000 and an ack for the flow's id is in the store; the run
    of the callback settles the promise with the ack, not with the expiry
    error. *)
Lemma late_ack_beats_expiry :
  deadline_passed 1000 (Flow.expire (overdue [dup_ack])) = true
  /\ Flow.promise (tick toy_decrypt toy_parse Broadcast (Str "k") false 1000
                        (overdue [dup_ack]))
     = Some (Resolved dup_ack)
  /\ Flow.promise (tick toy_decrypt toy_parse Authenticate (Str "k") false 1000
                        (overdue [auth_ack_abc]))
     = Some (Resolved (Msg.set_data (Obj [("token", Str "T1")]) auth_ack_abc))
  /\ Flow.promise (tick toy_decrypt toy_parse Challenge (Str "k") false 1000
                        (overdue [challenge_ack_abc]))
     = Some (Resolved (Msg.set_data (Obj [("token", Str "sig")]) challenge_ack_abc)).
Proof. repeat split. Qed.

Lemma accepted_message_settles_first_witness :
  Flow.promise (tick toy_decrypt toy_parse Challenge (Str "k") false 1000
                     (overdue [challenge_nack_abc]))
  = Some (Rejected challenge_nack_abc).
Proof.
  pose proof (accepted_message_settles_first toy_decrypt toy_parse Challenge
                (Str "k") false 1000 (overdue [challenge_nack_abc])
                None (Some challenge_nack_abc) None []
                eq_refl eq_refl eq_refl) as [(_ & H & _) _].
  apply H; reflexivity.
Defined.


Lemma nack_verified_only_by_authenticate_witness :
  Flow.promise (tick toy_decrypt toy_parse Authenticate (Str "k") false 1000
                     (confirmed [auth_nack_abc]))
  = Some (Rejected auth_nack_abc).
Proof.
  pose proof (nack_verified_only_by_authenticate toy_decrypt toy_parse
                Authenticate (Str "k") false 1000 (confirmed [auth_nack_abc])
                "abc" auth_nack_abc None []) as H.
  apply H; try reflexivity. discriminate.
Defined.

(** C5, as stated, fails: a nack found in the same run as an ack is taken
    from the store and never acted on.  In [broadcast] the promise is
    resolved with the ack; in [challenge], when the ack does not decode, the
    promise stays pending and the flow goes on polling an empty store, so
    the rejection is lost. *)
Lemma nack_beside_ack_is_dropped :
  (terminal_lookups Broadcast 1000 (Some "abc") [dup_ack; sign_nack_foreign]
   = (Some dup_ack, Some sign_nack_foreign, None, [])
   /\ Flow.promise (tick toy_decrypt toy_parse Broadcast (Str "k") false 1000
                         (confirmed [dup_ack; sign_nack_foreign]))
      = Some (Resolved dup_ack))
  /\ (terminal_lookups Challenge 1000 (Some "abc")
                       [challenge_ack_foreign; challenge_nack_abc]
      = (Some challenge_ack_foreign, Some challenge_nack_abc, None, [])
      /\ tick toy_decrypt toy_parse Challenge (Str "k") false 1000
              (confirmed [challenge_ack_foreign; challenge_nack_abc])
         = confirmed []).
Proof. repeat split. Qed.



Lemma authenticate_requires_challenge_data_witness :
  authenticate toy_encrypt toy_stringify idle Undefined true 1000 "fresh"
               (Some alice) my_app Undefined
  = Stalled "missing or invalid challenge_data.key_type".
Proof.
  apply (authenticate_requires_challenge_data toy_encrypt toy_stringify idle
           Undefined true 1000 "fresh" alice my_app); reflexivity.
Defined.


(** The authenticate scenario of the specification, run on the model: the
    request goes out at 1000 with the default timeout, the [auth_wait] for
    "abc" moves the deadline to its own [expire], and the [auth_ack] whose
    payload decrypts to the token T1 resolves the promise and fills in the
    caller's credential. *)
Example authenticate_scenario :
  match authenticate toy_encrypt toy_stringify idle Undefined true 1000 "k"
                     (Some newcomer) my_app my_challenge with
  | Stalled _ => False
  | Polling auth_key payload s0 =>
      let s1 := fire toy_decrypt toy_parse Authenticate auth_key true 1250
                     (receive auth_wait_abc s0) in
      let s2 := fire toy_decrypt toy_parse Authenticate auth_key true 1500
                     (receive auth_ack_abc s1) in
      auth_key = Str "k"
      /\ Flow.expire s0 = Some 61000
      /\ Flow.uuid s1 = Some "abc" /\ Flow.expire s1 = Some 9000
      /\ Flow.promise s2
         = Some (Resolved (Msg.set_data (Obj [("token", Str "T1")]) auth_ack_abc))
      /\ Flow.auth s2 = Auth.mk (Str "alice") (Str "T1") Undefined (Str "k")
      /\ Flow.waiting s2 = false /\ Flow.store s2 = []
  end.
Proof. cbv. repeat split. Qed.

(** A flow whose [*_wait] never arrives is rejected with the expiry error
    at its deadline and stops polling. *)
Example expiry_in_sent_phase :
  let s := fire toy_decrypt toy_parse Broadcast (Str "k") false 5000 (fresh_flow []) in
  Flow.promise s = Some (RejectedError "expired") /\ Flow.waiting s = false.
Proof. split; reflexivity. Qed.

(** ** The store: further results *)

Lemma filter_twice {A : Type} (f g : A -> bool) (l : list A) :
  filter f (filter g l) = filter (fun x => g x && f x) l.
Proof.
  induction l as [|a l IH]; simpl; [reflexivity|].
  destruct (g a); simpl; [destruct (f a)|]; now rewrite IH.
Qed.

Lemma find_first {A : Type} (f : A -> bool) (l : list A) (x : A) :
  find f l = Some x ->
  exists before after,
    l = (before ++ x :: after)%list /\ forall y, In y before -> f y = false.
Proof.
  induction l as [|a l IH]; simpl; [discriminate|].
  destruct (f a) eqn:Fa.
  - intros [= ->]. exists [], l. split; [reflexivity | intros y []].
  - intros H. destruct (IH H) as (before & after & -> & Hb).
    exists (a :: before), after. split; [reflexivity|].
    intros y [<- | Hy]; [exact Fa | now apply Hb].
Qed.

Lemma find_through_filter {A : Type} (f g : A -> bool) (l : list A) :
  (forall x, f x = true -> g x = true) -> find f (filter g l) = find f l.
Proof.
  intros H. induction l as [|a l IH]; simpl; [reflexivity|].
  destruct (g a) eqn:Ga; simpl.
  - now rewrite IH.
  - destruct (f a) eqn:Fa; [|exact IH]. rewrite (H a Fa) in Ga. discriminate.
Qed.

(** The removal filter of a successful lookup is the negated match. *)
Lemma not_taken_matching type uuid req o :
  matching type uuid req = true ->
  not_taken type uuid req o = negb (matching type uuid o).
Proof.
  unfold not_taken, matching. intros H.
  destruct (truthy_str uuid); [|reflexivity].
  apply andb_true_iff in H. destruct H as [_ H]. apply loose_eq_eq in H.
  now rewrite H.
Qed.

Lemma getRequest_rest now type uuid reqs :
  snd (getRequest now type uuid reqs)
  = filter (fun o => not_expired now o && negb (matching type uuid o)) reqs.
Proof.
  destruct (fst (getRequest now type uuid reqs)) as [m|] eqn:F.
  - destruct (getRequest_found _ _ _ _ _ F) as (_ & _ & Hm & ->).
    rewrite filter_twice. apply filter_ext. intros o.
    now rewrite (not_taken_matching _ _ _ o Hm).
  - destruct (getRequest_missed _ _ _ _ F) as [-> Hall].
    apply filter_ext_in. intros o Ho.
    destruct (not_expired now o) eqn:L; [|reflexivity].
    rewrite Hall; [reflexivity|]. apply filter_In. now split.
Qed.

(** X1: whatever a lookup returns, the store it leaves is the old store
    without the expired entries and without the entries matching the
    lookup, in the old order; nothing is added or reordered, so the store
    never grows. *)
Theorem getRequest_leaves_live_unmatched now type uuid reqs :
  snd (getRequest now type uuid reqs)
  = filter (fun o => not_expired now o && negb (matching type uuid o)) reqs
  /\ (List.length (snd (getRequest now type uuid reqs)) <= List.length reqs)%nat.
Proof.
  split; [apply getRequest_rest|].
  rewrite getRequest_rest. apply filter_length_le.
Qed.

(** X2: a lookup returns the oldest live match: in the live part of the
    store every entry in front of the returned one fails the lookup's
    test. *)
Theorem getRequest_returns_oldest now type uuid reqs m :
  fst (getRequest now type uuid reqs) = Some m ->
  exists older newer,
    filter (not_expired now) reqs = (older ++ m :: newer)%list
    /\ matching type uuid m = true
    /\ forall o, In o older -> matching type uuid o = false.
Proof.
  unfold getRequest.
  destruct (find (matching type uuid) (filter (not_expired now) reqs)) as [r|] eqn:F;
    simpl; [|discriminate].
  intros [= ->]. destruct (find_first _ _ _ F) as (older & newer & E & Ho).
  exists older, newer. repeat split; try assumption.
  now destruct (find_some _ _ F).
Qed.

Lemma getRequest_returns_oldest_witness :
  exists older newer,
    filter (not_expired 1000) [stale_ack; older_ack; dup_ack]
    = (older ++ older_ack :: newer)%list
    /\ matching CMD.SIGN_ACK (Some "abc") older_ack = true
    /\ forall o, In o older -> matching CMD.SIGN_ACK (Some "abc") o = false.
Proof.
  apply (getRequest_returns_oldest 1000 CMD.SIGN_ACK (Some "abc")
           [stale_ack; older_ack; dup_ack] older_ack).
  reflexivity.
Defined.

Lemma matching_kind_of type uuid o : matching type uuid o = true -> Msg.cmd o = type.
Proof.
  unfold matching. intros H. apply andb_true_iff in H. destruct H as [H _].
  now apply String.eqb_eq.
Qed.

(** X3: lookups for different kinds do not disturb each other: what a
    lookup returns is the same whether or not a lookup for another kind ran
    just before it, and the store two lookups leave does not depend on
    their order. *)
Theorem getRequest_kinds_independent now type1 uuid1 type2 uuid2 reqs :
  type1 <> type2 ->
  fst (getRequest now type2 uuid2 (snd (getRequest now type1 uuid1 reqs)))
  = fst (getRequest now type2 uuid2 reqs)
  /\ snd (getRequest now type2 uuid2 (snd (getRequest now type1 uuid1 reqs)))
     = snd (getRequest now type1 uuid1 (snd (getRequest now type2 uuid2 reqs))).
Proof.
  intros Hne. split.
  - assert (E : filter (not_expired now) (snd (getRequest now type1 uuid1 reqs))
                = filter (fun o => negb (matching type1 uuid1 o))
                         (filter (not_expired now) reqs)).
    { rewrite getRequest_rest, !filter_twice. apply filter_ext. intros o.
      destruct (not_expired now o), (matching type1 uuid1 o); reflexivity. }
    assert (F : find (matching type2 uuid2)
                     (filter (not_expired now) (snd (getRequest now type1 uuid1 reqs)))
                = find (matching type2 uuid2) (filter (not_expired now) reqs)).
    { rewrite E. apply find_through_filter. intros o Ho.
      destruct (matching type1 uuid1 o) eqn:M; [|reflexivity].
      apply matching_kind_of in Ho. apply matching_kind_of in M. congruence. }
    unfold getRequest at 1 3. rewrite F.
    now destruct (find (matching type2 uuid2) (filter (not_expired now) reqs)).
  - rewrite !getRequest_rest, !filter_twice. apply filter_ext. intros o.
    destruct (not_expired now o), (matching type1 uuid1 o), (matching type2 uuid2 o);
      reflexivity.
Qed.

Lemma getRequest_kinds_independent_witness :
  fst (getRequest 1000 CMD.SIGN_ACK (Some "abc")
         (snd (getRequest 1000 CMD.SIGN_NACK (Some "abc")
                 [sign_nack_foreign; dup_ack])))
  = fst (getRequest 1000 CMD.SIGN_ACK (Some "abc") [sign_nack_foreign; dup_ack]).
Proof.
  apply (getRequest_kinds_independent 1000 CMD.SIGN_NACK (Some "abc")
           CMD.SIGN_ACK (Some "abc") [sign_nack_foreign; dup_ack]).
  discriminate.
Defined.

(** X4: the inbound handler never drops or reorders what is stored: it
    appends the message itself when its kind is one of the thirteen stored
    kinds and leaves the store alone otherwise; only a [connected] message
    changes the timeout, to its [timeout] times 1000; the connection flag is
    never touched. *)
Theorem onmessage_appends_stored_kinds m g :
  requests (onmessage m g)
  = (requests g ++ if is_stored_kind (Msg.cmd m) then [m] else [])%list
  /\ HAS_timeout (onmessage m g)
     = (if String.eqb (Msg.cmd m) CMD.CONNECTED
        then option_map (fun t => t * 1000) (Msg.timeout m)
        else HAS_timeout g)
  /\ HAS_connected (onmessage m g) = HAS_connected g.
Proof.
  unfold onmessage.
  destruct (String.eqb_spec (Msg.cmd m) "") as [E|_].
  - rewrite E. simpl. now rewrite app_nil_r.
  - destruct (String.eqb_spec (Msg.cmd m) CMD.CONNECTED) as [E|_].
    + rewrite E. simpl. now rewrite app_nil_r.
    + destruct (is_stored_kind (Msg.cmd m)); simpl; [|rewrite app_nil_r]; tauto.
Qed.

(** ** The polling callbacks: further results *)

Lemma settle_keeps o s :
  Flow.store (settle o s) = Flow.store s
  /\ Flow.uuid (settle o s) = Flow.uuid s
  /\ Flow.expire (settle o s) = Flow.expire s
  /\ Flow.waiting (settle o s) = Flow.waiting s
  /\ Flow.notified (settle o s) = Flow.notified s
  /\ Flow.auth (settle o s) = Flow.auth s.
Proof. unfold settle. destruct (Flow.promise s); simpl; tauto. Qed.

Lemma settle_settles o s : Flow.promise (settle o s) <> None.
Proof.
  unfold settle. destruct (Flow.promise s) eqn:P; simpl; [rewrite P|]; discriminate.
Qed.

Section Polling.

Variable decrypt : value -> value -> option string.
Variable json_parse : string -> option value.

Ltac open_tick :=
  unfold tick, authenticate_tick, authenticate_poll,
         broadcast_tick, broadcast_poll, challenge_tick, challenge_poll.

(** Case analysis on everything a run of a callback branches on. *)
Ltac branches :=
  repeat (cbv beta iota;
          cbn [negb fst snd Flow.store Flow.uuid Flow.expire Flow.waiting
               Flow.promise Flow.notified Flow.auth];
          match goal with
          | |- context [match ?x with _ => _ end] =>
              lazymatch x with
              | context [match _ with _ => _ end] => fail
              | _ => destruct x eqn:?
              end
          end).

Ltac flatten_state :=
  unfold check_expired, settle, confirm, clearInterval, with_auth, with_store;
  cbn [Flow.store Flow.uuid Flow.expire Flow.waiting Flow.promise
       Flow.notified Flow.auth].

(** The store a run leaves is the one its lookups leave. *)
Lemma tick_store f auth_key cbWait now s :
  Flow.store (tick decrypt json_parse f auth_key cbWait now s)
  = if truthy_str (Flow.uuid s)
    then snd (terminal_lookups f now (Flow.uuid s) (Flow.store s))
    else snd (getRequest now (wait_kind f) None (Flow.store s)).
Proof.
  destruct (truthy_str (Flow.uuid s)) eqn:T;
    destruct f; open_tick; rewrite T; cbn [negb wait_kind];
    flatten_state; branches; flatten_state; branches; reflexivity.
Qed.

Lemma terminal_lookups_rest f now uuid rs :
  snd (terminal_lookups f now uuid rs)
  = filter (fun o => not_expired now o
                     && negb (matching (ack_kind f) uuid o
                              || matching (nack_kind f) uuid o
                              || matching (err_kind f) uuid o)) rs.
Proof.
  destruct (terminal_lookups f now uuid rs) as [[[a n] e] rs'] eqn:L.
  apply terminal_lookups_steps in L. cbv zeta in L. destruct L as (_ & _ & _ & ->).
  cbn [snd]. rewrite !getRequest_rest, !filter_twice. apply filter_ext. intros o.
  destruct (not_expired now o), (matching (ack_kind f) uuid o),
    (matching (nack_kind f) uuid o), (matching (err_kind f) uuid o); reflexivity.
Qed.

Lemma tick_store_eq f auth_key cbWait now s :
  Flow.store (tick decrypt json_parse f auth_key cbWait now s)
  = filter (fun o => not_expired now o && negb (looked_up f (Flow.uuid s) o))
           (Flow.store s).
Proof.
  rewrite tick_store. unfold looked_up.
  destruct (truthy_str (Flow.uuid s)).
  - apply terminal_lookups_rest.
  - apply getRequest_rest.
Qed.

(** X7: while a flow knows no id, a run of its callback takes from the
    store only expired entries and entries of its own [*_wait] kind: a live
    ack, nack or err, whatever id it carries, is still stored afterwards. *)
Theorem sent_run_takes_only_waits f auth_key cbWait now s o :
  phase_of s = Sent ->
  In o (Flow.store (tick decrypt json_parse f auth_key cbWait now s))
  <-> In o (Flow.store s) /\ live now o /\ Msg.cmd o <> wait_kind f.
Proof.
  intros Hph. unfold phase_of in Hph.
  destruct (truthy_str (Flow.uuid s)) eqn:T; [discriminate|].
  rewrite tick_store_eq, filter_In. unfold looked_up. rewrite T.
  rewrite andb_true_iff, negb_true_iff, not_expired_live.
  assert (E : matching (wait_kind f) None o = false <-> Msg.cmd o <> wait_kind f).
  { unfold matching. cbn [truthy_str]. rewrite andb_true_r.
    destruct (String.eqb_spec (Msg.cmd o) (wait_kind f)); split; congruence. }
  rewrite E. tauto.
Qed.

(** X8: once a flow knows its id, a run of its callback takes from the
    store only expired entries and the acks, nacks and errs of its own kind
    that carry its own id; messages for other ids, other flows' kinds and
    all [*_wait] messages stay stored. *)
Theorem confirmed_run_takes_only_own f auth_key cbWait now s u o :
  Flow.uuid s = Some u -> u <> "" ->
  In o (Flow.store (tick decrypt json_parse f auth_key cbWait now s))
  <-> In o (Flow.store s) /\ live now o
      /\ ~ (Msg.uuid o = Some u
            /\ (Msg.cmd o = ack_kind f \/ Msg.cmd o = nack_kind f
                \/ Msg.cmd o = err_kind f)).
Proof.
  intros U Hu.
  assert (T : truthy_str (Flow.uuid s) = true).
  { rewrite U. simpl. destruct (String.eqb_spec u ""); [contradiction|reflexivity]. }
  rewrite tick_store_eq, filter_In. unfold looked_up. rewrite T, U.
  rewrite andb_true_iff, negb_true_iff, not_expired_live.
  pose proof (matching_pair (ack_kind f) u o Hu) as Ma.
  pose proof (matching_pair (nack_kind f) u o Hu) as Mn.
  pose proof (matching_pair (err_kind f) u o Hu) as Me.
  destruct (matching (ack_kind f) (Some u) o),
    (matching (nack_kind f) (Some u) o), (matching (err_kind f) (Some u) o);
    cbn [orb]; intuition congruence.
Qed.

(** X9: a flow never goes back: once it knows its id, no run of its
    callback changes the id or the deadline or calls [cbWait] again, so it
    stays in the confirmed phase. *)
Theorem confirmed_keeps_id_and_deadline f auth_key cbWait now s :
  phase_of s = Confirmed ->
  let s' := tick decrypt json_parse f auth_key cbWait now s in
  Flow.uuid s' = Flow.uuid s
  /\ Flow.expire s' = Flow.expire s
  /\ Flow.notified s' = Flow.notified s
  /\ phase_of s' = Confirmed.
Proof.
  intros Hph s'.
  assert (T : truthy_str (Flow.uuid s) = true).
  { unfold phase_of in Hph. now destruct (truthy_str (Flow.uuid s)). }
  assert (H : Flow.uuid s' = Flow.uuid s /\ Flow.expire s' = Flow.expire s
              /\ Flow.notified s' = Flow.notified s).
  { subst s'. destruct f; open_tick; rewrite T; cbn [negb];
      flatten_state; branches; flatten_state; branches; repeat split. }
  destruct H as (Hu & He & Hn). repeat split; try assumption.
  unfold phase_of. now rewrite Hu, T.
Qed.


(** X11: in [authenticate] a rejection does not stop the polling: a
    verified nack, or an err, rejects the promise but leaves the interval
    installed while the deadline is not reached; and a decodable ack found
    by a later run, with the promise already settled, still clears the
    interval and overwrites the caller's [token], [expire] and [key]. *)
Theorem authenticate_rejection_keeps_polling auth_key cbWait now s u :
  Flow.uuid s = Some u -> u <> "" ->
  let s' := tick decrypt json_parse Authenticate auth_key cbWait now s in
  (forall n req_err rs,
      Flow.promise s = None ->
      terminal_lookups Authenticate now (Some u) (Flow.store s)
      = (None, Some n, req_err, rs) ->
      decrypt (Msg.data n) auth_key = Some u ->
      deadline_passed now (Flow.expire s) = false ->
      Flow.promise s' = Some (Rejected n) /\ Flow.waiting s' = Flow.waiting s)
  /\ (forall e rs,
         Flow.promise s = None ->
         terminal_lookups Authenticate now (Some u) (Flow.store s)
         = (None, None, Some e, rs) ->
         deadline_passed now (Flow.expire s) = false ->
         Flow.promise s' = Some (Rejected e) /\ Flow.waiting s' = Flow.waiting s)
  /\ (forall o a req_nack req_err rs text d,
         Flow.promise s = Some o ->
         terminal_lookups Authenticate now (Some u) (Flow.store s)
         = (Some a, req_nack, req_err, rs) ->
         decrypt (Msg.data a) auth_key = Some text ->
         json_parse text = Some d -> d <> Null -> d <> Undefined ->
         Flow.promise s' = Some o
         /\ Flow.auth s' = Auth.mk (Auth.username (Flow.auth s))
                                   (prop d "token") (prop d "expire") auth_key
         /\ Flow.waiting s' = false).
Proof.
  intros U Hu s'.
  assert (T : truthy_str (Flow.uuid s) = true).
  { rewrite U. simpl. destruct (String.eqb_spec u ""); [contradiction|reflexivity]. }
  subst s'. open_tick. rewrite T, U. cbn [negb]. split; [|split].
  - intros n req_err rs P L D E. rewrite L. cbv zeta.
    change (Flow.uuid (with_store rs s)) with (Flow.uuid s).
    rewrite D, U. cbn [loose_eq]. rewrite String.eqb_refl.
    rewrite check_expired_early.
    + destruct (settle_keeps (Rejected n) (with_store rs s)) as (_ & _ & _ & W & _).
      split; [now apply settle_pending | exact W].
    + destruct (settle_keeps (Rejected n) (with_store rs s)) as (_ & _ & X & _).
      rewrite X. exact E.
  - intros e rs P L E. rewrite L. cbv zeta.
    rewrite check_expired_early.
    + destruct (settle_keeps (Rejected e) (with_store rs s)) as (_ & _ & _ & W & _).
      split; [now apply settle_pending | exact W].
    + destruct (settle_keeps (Rejected e) (with_store rs s)) as (_ & _ & X & _).
      rewrite X. exact E.
  - intros o a req_nack req_err rs text d P L D J Hn Hu'. rewrite L. cbv zeta.
    rewrite D, J.
    destruct d; try congruence; flatten_state; rewrite P;
      cbn [Flow.promise Flow.expire];
      destruct (deadline_passed now (Flow.expire s)); cbn; rewrite ?P; cbn;
      repeat split; assumption.
Qed.

(** X12: the callbacks of [broadcast] and [challenge] never write to the
    caller's credential, and no callback changes its [username]; the
    credential changes only in [authenticate], on an ack found for the
    flow's id, and then its [key] is the session key and the polling has
    stopped. *)
Theorem only_authenticate_writes_credential f auth_key cbWait now s :
  let s' := tick decrypt json_parse f auth_key cbWait now s in
  Auth.username (Flow.auth s') = Auth.username (Flow.auth s)
  /\ (Flow.auth s' = Flow.auth s
      \/ (f = Authenticate /\ phase_of s = Confirmed
          /\ Auth.key (Flow.auth s') = auth_key /\ Flow.waiting s' = false)).
Proof.
  intros s'. subst s'. unfold phase_of.
  destruct (truthy_str (Flow.uuid s)) eqn:T;
    destruct f; open_tick; rewrite T; cbn [negb];
    flatten_state; branches; flatten_state; branches;
    cbn [Flow.auth Flow.waiting Auth.username Auth.key];
    split; try reflexivity;
    first [ left; reflexivity
          | right; repeat split; reflexivity ].
Qed.

Lemma getRequest_single now type uuid m :
  not_expired now m = true -> matching type uuid m = true ->
  getRequest now type uuid [m] = (Some m, []).
Proof.
  intros L M. unfold getRequest. cbn [filter]. rewrite L. cbn [find]. rewrite M.
  cbn [filter]. now rewrite (not_taken_matching _ _ _ m M), M.
Qed.

Lemma getRequest_empty now type uuid : getRequest now type uuid [] = (None, []).
Proof. reflexivity. Qed.

(** X13: the whole [broadcast] exchange on an empty store: a flow that
    has sent its request receives a [sign_wait] carrying a non-empty id and
    a deadline still ahead, and the next run takes the id and that deadline
    and goes on polling; it then receives a live [sign_ack] for that id, and
    the next run resolves the promise with that ack, clears the interval and
    leaves the store empty.  [cbWait], if given, was called once, with the
    [sign_wait]. *)
Theorem broadcast_confirm_then_ack auth_key cbWait sooner later s0 w a u :
  Flow.store s0 = [] -> Flow.uuid s0 = None ->
  Flow.waiting s0 = true -> Flow.promise s0 = None ->
  Msg.cmd w = CMD.SIGN_WAIT -> Msg.uuid w = Some u -> u <> "" ->
  (forall e, Msg.expire w = Some e -> sooner < e) ->
  Msg.cmd a = CMD.SIGN_ACK -> Msg.uuid a = Some u -> live later a ->
  let s1 := fire decrypt json_parse Broadcast auth_key cbWait sooner (receive w s0) in
  let s2 := fire decrypt json_parse Broadcast auth_key cbWait later (receive a s1) in
  (Flow.uuid s1 = Some u /\ Flow.expire s1 = Msg.expire w
   /\ Flow.promise s1 = None /\ Flow.waiting s1 = true)
  /\ Flow.promise s2 = Some (Resolved a)
  /\ Flow.waiting s2 = false
  /\ Flow.store s2 = []
  /\ Flow.notified s2 = (Flow.notified s0 ++ if cbWait then [w] else [])%list.
Proof.
  intros S0 U0 W0 P0 Cw Uw Hu Ew Ca Ua La s1 s2.
  assert (Lw : not_expired sooner w = true).
  { apply not_expired_live. intros e He. right. specialize (Ew e He). lia. }
  assert (Dw : deadline_passed sooner (Msg.expire w) = false).
  { unfold deadline_passed. destruct (Msg.expire w) as [e|]; [|reflexivity].
    specialize (Ew e eq_refl). apply Z.leb_gt. exact Ew. }
  assert (T : truthy_str (Some u) = true).
  { simpl. destruct (String.eqb_spec u ""); [contradiction|reflexivity]. }
  assert (E1 : s1 = confirm [] w w cbWait (receive w s0)).
  { subst s1. unfold fire. change (Flow.waiting (receive w s0)) with (Flow.waiting s0).
    rewrite W0. open_tick.
    change (Flow.uuid (receive w s0)) with (Flow.uuid s0). rewrite U0.
    cbn [truthy_str negb].
    assert (St : Flow.store (receive w s0) = [w]).
    { unfold receive. cbn [with_store Flow.store]. rewrite S0.
      unfold onmessage. rewrite Cw. reflexivity. }
    assert (G : getRequest sooner CMD.SIGN_WAIT None (Flow.store (receive w s0))
                = (Some w, [])).
    { rewrite St. apply getRequest_single; [exact Lw|].
      unfold matching. rewrite Cw. reflexivity. }
    rewrite G. apply check_expired_early. exact Dw. }
  assert (E2 : s2 = check_expired later
                      (settle (Resolved a) (clearInterval (with_store [] (receive a s1))))).
  { subst s2. unfold fire.
    assert (Wr : Flow.waiting (receive a s1) = true) by (rewrite E1; exact W0).
    assert (Ur : Flow.uuid (receive a s1) = Some u) by (rewrite E1; exact Uw).
    assert (Sr : Flow.store (receive a s1) = [a]).
    { rewrite E1. unfold receive. cbn [with_store Flow.store confirm].
      unfold onmessage. rewrite Ca. reflexivity. }
    remember (receive a s1) as r eqn:R. clear R.
    assert (G : terminal_lookups Broadcast later (Flow.uuid r) (Flow.store r)
                = (Some a, None, None, [])).
    { rewrite Ur, Sr. unfold terminal_lookups. cbn [ack_kind nack_kind err_kind].
      assert (Ga : getRequest later CMD.SIGN_ACK (Some u) [a] = (Some a, [])).
      { apply getRequest_single; [now apply not_expired_live|].
        apply (matching_pair _ u a Hu). now split. }
      rewrite Ga. reflexivity. }
    rewrite Wr. open_tick. rewrite G, Ur, T. reflexivity. }
  split.
  - rewrite E1. cbn [confirm receive with_store Flow.uuid Flow.expire
                     Flow.promise Flow.waiting].
    repeat split; assumption.
  - assert (P2 : Flow.promise
                   (settle (Resolved a) (clearInterval (with_store [] (receive a s1))))
                 = Some (Resolved a)).
    { apply settle_pending. rewrite E1. exact P0. }
    rewrite E2. split; [now apply check_expired_settled|].
    destruct (check_expired_keeps later
                (settle (Resolved a) (clearInterval (with_store [] (receive a s1)))))
      as (Cs & _ & _ & Cn & _).
    destruct (settle_keeps (Resolved a) (clearInterval (with_store [] (receive a s1))))
      as (Ks & _ & _ & Kw & Kn & _).
    split; [|split].
    + unfold check_expired. destruct (deadline_passed later _).
      * destruct (settle_keeps (RejectedError "expired")
                    (clearInterval (settle (Resolved a)
                       (clearInterval (with_store [] (receive a s1))))))
          as (_ & _ & _ & Kw' & _).
        rewrite Kw'. reflexivity.
      * rewrite Kw. reflexivity.
    + rewrite Cs, Ks. reflexivity.
    + rewrite Cn, Kn, E1. reflexivity.
Qed.

End Polling.

Lemma sent_run_takes_only_waits_witness :
  In auth_ack_abc
     (Flow.store (tick toy_decrypt toy_parse Authenticate (Str "k") false 1000
                       (fresh_flow [auth_ack_abc; auth_wait_abc]))).
Proof.
  apply (sent_run_takes_only_waits toy_decrypt toy_parse Authenticate (Str "k")
           false 1000 (fresh_flow [auth_ack_abc; auth_wait_abc]) auth_ack_abc).
  - reflexivity.
  - split; [now left|]. split; [intros e [=] | discriminate].
Defined.

Lemma confirmed_run_takes_only_own_witness :
  In sign_nack_foreign
     (Flow.store (tick toy_decrypt toy_parse Challenge (Str "k") false 1000
                       (confirmed [challenge_ack_abc; sign_nack_foreign]))).
Proof.
  apply (confirmed_run_takes_only_own toy_decrypt toy_parse Challenge (Str "k")
           false 1000 (confirmed [challenge_ack_abc; sign_nack_foreign])
           "abc" sign_nack_foreign).
  - reflexivity.
  - discriminate.
  - split; [right; now left|]. split; [intros e [=]|].
    intros [_ [H | [H | H]]]; discriminate H.
Defined.

Lemma confirmed_keeps_id_and_deadline_witness :
  Flow.uuid (tick toy_decrypt toy_parse Broadcast (Str "k") true 1000
                  (confirmed [dup_ack])) = Some "abc"
  /\ Flow.expire (tick toy_decrypt toy_parse Broadcast (Str "k") true 1000
                       (confirmed [dup_ack])) = Some 5000.
Proof.
  pose proof (confirmed_keeps_id_and_deadline toy_decrypt toy_parse Broadcast
                (Str "k") true 1000 (confirmed [dup_ack]) eq_refl)
    as (H1 & H2 & _).
  split; [exact H1 | exact H2].
Defined.



Lemma authenticate_rejection_keeps_polling_witness :
  Flow.promise (tick toy_decrypt toy_parse Authenticate (Str "k") false 1000
                     (confirmed [auth_nack_abc])) = Some (Rejected auth_nack_abc)
  /\ Flow.waiting (tick toy_decrypt toy_parse Authenticate (Str "k") false 1000
                        (confirmed [auth_nack_abc])) = true.
Proof.
  pose proof (authenticate_rejection_keeps_polling toy_decrypt toy_parse (Str "k")
                false 1000 (confirmed [auth_nack_abc]) "abc" eq_refl) as H.
  destruct H as (H & _); [discriminate|].
  apply (H auth_nack_abc None []); reflexivity.
Defined.

Lemma broadcast_confirm_then_ack_witness :
  Flow.promise
    (fire toy_decrypt toy_parse Broadcast (Str "k") true 1500
       (receive dup_ack
          (fire toy_decrypt toy_parse Broadcast (Str "k") true 1250
             (receive (wire CMD.SIGN_WAIT (Some "abc") (Some 9000) Undefined)
                      (fresh_flow [])))))
  = Some (Resolved dup_ack).
Proof.
  apply (broadcast_confirm_then_ack toy_decrypt toy_parse (Str "k") true 1250 1500
           (fresh_flow []) (wire CMD.SIGN_WAIT (Some "abc") (Some 9000) Undefined)
           dup_ack "abc"); try reflexivity.
  - discriminate.
  - intros e [= <-]. lia.
  - intros e [=].
Defined.

(** ** The entry points: further results *)

Section Requests.

Variable encrypt : value -> value -> string.
Variable decrypt : value -> value -> option string.
Variable json_parse : string -> option value.
Variable stringify : value -> string.

Ltac passed_asserts H :=
  unfold credential_checks, challenge_data_checks, assert, and_then in H;
  repeat match type of H with
         | context [if ?c then Passed tt else _] =>
             let E := fresh "A" in destruct c eqn:E; [|discriminate H]
         end.

(** What each executor has done once its asserts have passed. *)
Lemma authenticate_setup_passed g secret connected now fresh auth app_data
    challenge_data k p s :
  authenticate_setup encrypt stringify g secret connected now fresh
                     auth app_data challenge_data = Passed (k, p, s) ->
  exists a,
    auth = Some a /\ connected = true
    /\ truthy (Auth.username a) && is_string (Auth.username a) = true
    /\ k = auth_key_of a fresh
    /\ p = mkRequest CMD.AUTH_REQ (Auth.username a) (Auth.token a)
                     (encrypt (Str (stringify (Obj [("token", Auth.token a);
                                                    ("app", app_data);
                                                    ("challenge", challenge_data)])))
                              k)
                     (if truthy secret then Some (encrypt k secret) else None)
    /\ s = Flow.mk (requests g) None
                   (option_map (fun t => now + t) (HAS_timeout g)) true None [] a.
Proof.
  unfold authenticate_setup. destruct auth as [a|]; [|discriminate].
  intros H. passed_asserts H. injection H as <- <- <-.
  exists a. repeat split. exact A.
Qed.

Lemma broadcast_setup_passed g connected now auth key_type ops k p s :
  broadcast_setup encrypt stringify g connected now auth key_type ops
  = Passed (k, p, s) ->
  exists a,
    auth = Some a /\ connected = true
    /\ truthy (Auth.username a) && is_string (Auth.username a) = true
    /\ truthy (Auth.token a) && is_string (Auth.token a) = true
    /\ truthy (Auth.key a) && is_string (Auth.key a) = true
    /\ ops_ok ops = true
    /\ k = Auth.key a
    /\ p = mkRequest CMD.SIGN_REQ (Auth.username a) (Auth.token a)
                     (encrypt (Str (stringify (Obj [("key_type", key_type);
                                                    ("ops", ops);
                                                    ("broadcast", Bool true)])))
                              k)
                     None
    /\ s = Flow.mk (requests g) None
                   (option_map (fun t => now + t) (HAS_timeout g)) true None [] a.
Proof.
  unfold broadcast_setup. destruct auth as [a|]; [|discriminate].
  intros H. passed_asserts H. injection H as <- <- <-.
  exists a. repeat split; assumption.
Qed.

Lemma challenge_setup_passed g connected now auth challenge_data k p s :
  challenge_setup encrypt stringify g connected now auth challenge_data
  = Passed (k, p, s) ->
  exists a,
    auth = Some a /\ connected = true
    /\ truthy (Auth.username a) && is_string (Auth.username a) = true
    /\ truthy (Auth.token a) && is_string (Auth.token a) = true
    /\ truthy (Auth.key a) && is_string (Auth.key a) = true
    /\ k = Auth.key a
    /\ p = mkRequest CMD.CHALLENGE_REQ (Auth.username a) (Auth.token a)
                     (encrypt (Str (stringify challenge_data)) k) None
    /\ s = Flow.mk (requests g) None
                   (option_map (fun t => now + t) (HAS_timeout g)) true None [] a.
Proof.
  unfold challenge_setup. destruct auth as [a|]; [|discriminate].
  intros H. passed_asserts H. injection H as <- <- <-.
  exists a. repeat split; assumption.
Qed.

Lemma launch_polling c k p s :
  launch c = Polling k p s -> c = Passed (k, p, s).
Proof.
  destruct c as [[[k' p'] s']|text]; simpl; [|discriminate].
  now intros [= -> -> ->].
Qed.

(** X5: the handshake decides the provisional deadline of every flow
    started after it: a [connected] message with [timeout] t makes it the
    start time plus 1000 t; a [connected] message without [timeout] leaves
    the flow without deadline, so that no run of its callback that finds no
    [*_wait] message ends it, however late. *)
Theorem handshake_sets_deadline g hello secret connected now fresh auth
    app_data challenge_data key_type ops c k p s :
  Msg.cmd hello = CMD.CONNECTED ->
  c = authenticate encrypt stringify (onmessage hello g) secret connected now
                   fresh auth app_data challenge_data
  \/ c = broadcast encrypt stringify (onmessage hello g) connected now auth
                   key_type ops
  \/ c = challenge encrypt stringify (onmessage hello g) connected now auth
                   challenge_data ->
  c = Polling k p s ->
  Flow.expire s = option_map (fun t => now + t * 1000) (Msg.timeout hello)
  /\ Flow.store s = requests g
  /\ (Msg.timeout hello = None ->
      forall f auth_key cbWait later rs,
        getRequest later (wait_kind f) None (Flow.store s) = (None, rs) ->
        tick decrypt json_parse f auth_key cbWait later s = with_store rs s).
Proof.
  intros Hc Hcall Hp.
  assert (Hg : HAS_timeout (onmessage hello g)
               = option_map (fun t => t * 1000) (Msg.timeout hello)
               /\ requests (onmessage hello g) = requests g).
  { unfold onmessage. rewrite Hc. split; reflexivity. }
  destruct Hg as [Ht Hr].
  assert (Hs : s = Flow.mk (requests g) None
                           (option_map (fun t => now + t * 1000) (Msg.timeout hello))
                           true None [] (Flow.auth s)).
  { assert (Ho : option_map (fun t => now + t)
                   (option_map (fun t => t * 1000) (Msg.timeout hello))
                 = option_map (fun t => now + t * 1000) (Msg.timeout hello))
      by now destruct (Msg.timeout hello).
    destruct Hcall as [-> | [-> | ->]]; apply launch_polling in Hp.
    - apply authenticate_setup_passed in Hp.
      destruct Hp as (a & _ & _ & _ & _ & _ & ->). now rewrite Ht, Hr, Ho.
    - apply broadcast_setup_passed in Hp.
      destruct Hp as (a & _ & _ & _ & _ & _ & _ & _ & _ & ->). now rewrite Ht, Hr, Ho.
    - apply challenge_setup_passed in Hp.
      destruct Hp as (a & _ & _ & _ & _ & _ & _ & _ & ->). now rewrite Ht, Hr, Ho. }
  rewrite Hs. cbn [Flow.expire Flow.store]. repeat split.
  intros Hn f auth_key cbWait later rs Hw. rewrite Hn. cbn [option_map].
  destruct f; unfold tick, authenticate_tick, authenticate_poll,
    broadcast_tick, broadcast_poll, challenge_tick, challenge_poll;
    cbn [Flow.uuid Flow.store truthy_str negb wait_kind] in *;
    rewrite Hw; reflexivity.
Qed.

(** X14: no entry point writes to the socket unless every assert has
    passed: whatever is sent is a single request, sent with the transport
    connected, for a credential whose [username] is a non-empty string, and
    it carries that [username] as [account] and the credential's [token]. *)
Theorem request_sent_only_when_valid g secret connected now fresh auth
    app_data challenge_data key_type ops c p :
  c = authenticate encrypt stringify g secret connected now fresh auth
                   app_data challenge_data
  \/ c = broadcast encrypt stringify g connected now auth key_type ops
  \/ c = challenge encrypt stringify g connected now auth challenge_data ->
  In p (sent c) ->
  sent c = [p] /\ connected = true
  /\ exists a, auth = Some a
               /\ truthy (Auth.username a) = true
               /\ is_string (Auth.username a) = true
               /\ req_account p = Auth.username a
               /\ req_token p = Auth.token a.
Proof.
  intros Hcall Hin.
  destruct c as [text | k p' s]; [destruct Hin|].
  destruct Hin as [<- | []]. split; [reflexivity|].
  destruct Hcall as [H | [H | H]]; symmetry in H; apply launch_polling in H.
  - apply authenticate_setup_passed in H.
    destruct H as (a & -> & -> & Hu & _ & -> & _).
    apply andb_true_iff in Hu. destruct Hu as [Hu1 Hu2].
    split; [reflexivity|]. exists a. repeat split; assumption.
  - apply broadcast_setup_passed in H.
    destruct H as (a & -> & -> & Hu & _ & _ & _ & _ & -> & _).
    apply andb_true_iff in Hu. destruct Hu as [Hu1 Hu2].
    split; [reflexivity|]. exists a. repeat split; assumption.
  - apply challenge_setup_passed in H.
    destruct H as (a & -> & -> & Hu & _ & _ & _ & -> & _).
    apply andb_true_iff in Hu. destruct Hu as [Hu1 Hu2].
    split; [reflexivity|]. exists a. repeat split; assumption.
Qed.

(** X15: which key protects a request.  [broadcast] and [challenge]
    encrypt under the credential's own [key], a non-empty string, and never
    attach a key to the request; [authenticate] attaches the session key,
    encrypted under the configured secret, exactly when a secret is
    configured. *)
Theorem request_key_handling g secret connected now fresh auth
    app_data challenge_data key_type ops :
  (forall k p s,
      authenticate encrypt stringify g secret connected now fresh auth
                   app_data challenge_data = Polling k p s ->
      req_cmd p = CMD.AUTH_REQ
      /\ req_auth_key p = (if truthy secret then Some (encrypt k secret) else None))
  /\ (forall k p s,
         broadcast encrypt stringify g connected now auth key_type ops
         = Polling k p s ->
         req_cmd p = CMD.SIGN_REQ /\ req_auth_key p = None
         /\ truthy k = true /\ is_string k = true
         /\ req_data p
            = encrypt (Str (stringify (Obj [("key_type", key_type); ("ops", ops);
                                            ("broadcast", Bool true)]))) k
         /\ Some (Flow.auth s) = auth /\ k = Auth.key (Flow.auth s))
  /\ (forall k p s,
         challenge encrypt stringify g connected now auth challenge_data
         = Polling k p s ->
         req_cmd p = CMD.CHALLENGE_REQ /\ req_auth_key p = None
         /\ truthy k = true /\ is_string k = true
         /\ req_data p = encrypt (Str (stringify challenge_data)) k
         /\ Some (Flow.auth s) = auth /\ k = Auth.key (Flow.auth s)).
Proof.
  split; [|split]; intros k p s H; apply launch_polling in H.
  - apply authenticate_setup_passed in H.
    destruct H as (a & _ & _ & _ & _ & -> & _). split; reflexivity.
  - apply broadcast_setup_passed in H.
    destruct H as (a & -> & _ & _ & _ & Hk & _ & -> & -> & ->).
    apply andb_true_iff in Hk. destruct Hk as [Hk1 Hk2].
    cbn. repeat split; assumption.
  - apply challenge_setup_passed in H.
    destruct H as (a & -> & _ & _ & _ & Hk & -> & -> & ->).
    apply andb_true_iff in Hk. destruct Hk as [Hk1 Hk2].
    cbn. repeat split; assumption.
Qed.

(** X16: a credential that only names the user is enough for
    [authenticate] but not for the other two: with a [token] that is missing
    or not a string, [broadcast] and [challenge] stall on the token assert
    and send nothing, while [authenticate], given valid descriptors and a
    connected transport, sends its request. *)
Theorem token_needed_after_authentication g secret now fresh a app_data
    challenge_data key_type ops :
  truthy (Auth.username a) && is_string (Auth.username a) = true ->
  truthy (Auth.token a) && is_string (Auth.token a) = false ->
  truthy app_data && truthy (prop app_data "name")
  && is_string (prop app_data "name") = true ->
  challenge_data_checks challenge_data = Passed tt ->
  (forall connected,
      broadcast encrypt stringify g connected now (Some a) key_type ops
      = Stalled "missing or invalid token"
      /\ challenge encrypt stringify g connected now (Some a) challenge_data
         = Stalled "missing or invalid token")
  /\ exists p s,
       authenticate encrypt stringify g secret true now fresh (Some a)
                    app_data challenge_data
       = Polling (auth_key_of a fresh) p s.
Proof.
  intros Hu Ht Ha Hc. split.
  - intros connected.
    unfold broadcast, broadcast_setup, challenge, challenge_setup,
      credential_checks, assert, and_then.
    rewrite Hu, Ht. split; reflexivity.
  - unfold authenticate, authenticate_setup, assert, and_then.
    rewrite Hu, Ha, Hc. cbn. eauto.
Qed.

End Requests.

Lemma handshake_sets_deadline_witness :
  Flow.expire (Flow.mk [] None (Some 31000) true None [] alice)
  = option_map (fun t => 1000 + t * 1000) (Some 30).
Proof.
  apply (handshake_sets_deadline toy_encrypt toy_decrypt toy_parse toy_stringify
           idle (Msg.mk CMD.CONNECTED None None Undefined Undefined (Some 30) Undefined)
           Undefined true 1000 "fresh" (Some alice) my_app my_challenge
           (Str "posting") (Arr [Num 1])
           (challenge toy_encrypt toy_stringify
              (onmessage (Msg.mk CMD.CONNECTED None None Undefined Undefined
                                 (Some 30) Undefined) idle)
              true 1000 (Some alice) my_challenge)
           (Str "k")
           (mkRequest CMD.CHALLENGE_REQ (Str "alice") (Str "T0") "k:{}" None)).
  - reflexivity.
  - right. right. reflexivity.
  - reflexivity.
Defined.

Lemma request_sent_only_when_valid_witness :
  sent (broadcast toy_encrypt toy_stringify idle true 1000 (Some alice)
                  (Str "posting") (Arr [Num 1]))
  = [mkRequest CMD.SIGN_REQ (Str "alice") (Str "T0") "k:{}" None]
  /\ true = true.
Proof.
  pose proof (request_sent_only_when_valid toy_encrypt toy_stringify idle Undefined
                true 1000 "fresh" (Some alice) my_app my_challenge
                (Str "posting") (Arr [Num 1])
                (broadcast toy_encrypt toy_stringify idle true 1000 (Some alice)
                           (Str "posting") (Arr [Num 1]))
                (mkRequest CMD.SIGN_REQ (Str "alice") (Str "T0") "k:{}" None))
    as H.
  destruct H as (H1 & H2 & _); [right; left; reflexivity | left; reflexivity |].
  split; [exact H1 | exact H2].
Defined.

Lemma request_key_handling_witness :
  req_auth_key (mkRequest CMD.AUTH_REQ (Str "alice") Undefined "k:{}" (Some "s:k"))
  = Some (toy_encrypt (Str "k") (Str "s")).
Proof.
  pose proof (request_key_handling toy_encrypt toy_stringify idle (Str "s") true
                1000 "k" (Some newcomer) my_app my_challenge Undefined Undefined)
    as (H & _).
  apply (H (Str "k") (mkRequest CMD.AUTH_REQ (Str "alice") Undefined "k:{}" (Some "s:k"))
           (Flow.mk [] None (Some 61000) true None [] newcomer)).
  reflexivity.
Defined.

Lemma token_needed_after_authentication_witness :
  broadcast toy_encrypt toy_stringify idle true 1000 (Some newcomer)
            (Str "posting") (Arr [Num 1])
  = Stalled "missing or invalid token".
Proof.
  apply (token_needed_after_authentication toy_encrypt toy_stringify idle Undefined
           1000 "fresh" newcomer my_app my_challenge (Str "posting") (Arr [Num 1]));
    reflexivity.
Defined.

(** ** Options: results *)

Lemma host_matches_nonempty h : host_matches h = true -> String.eqb h "" = false.
Proof. destruct h; [discriminate | reflexivity]. Qed.

(** X17: what [setOptions] can and cannot change.  A call that returns
    leaves a host that is a string meeting the scheme pattern, if the host
    was one before; a field left out of the call keeps its value; a secret,
    once set, can be replaced but not removed, since [undefined] leaves it
    in place and the empty string fails the assert; and repeating the call
    changes nothing more. *)
Theorem setOptions_updates given current o :
  setOptions given current = Configured o ->
  (forall h, host current = Str h -> host_matches h = true ->
             exists h', host o = Str h' /\ host_matches h' = true)
  /\ (host given = Undefined -> host o = host current)
  /\ (auth_key_secret given = Undefined ->
      auth_key_secret o = auth_key_secret current)
  /\ (truthy (auth_key_secret current) = true ->
      truthy (auth_key_secret o) = true)
  /\ setOptions given o = Configured o.
Proof.
  unfold setOptions.
  destruct (host given) as [| | | |h| |] eqn:Hh; try discriminate.
  - (* host left out *)
    destruct (secret_ok (auth_key_secret given)) eqn:Hs; [|discriminate].
    intros [= <-]. cbn [truthy host auth_key_secret].
    destruct (auth_key_secret given) as [| | | |k| |] eqn:Hk; try discriminate;
      cbn [truthy secret_ok] in *.
    + repeat split; try reflexivity; try (intros; assumption). intros h E M. eauto.
    + rewrite Hs. repeat split; try reflexivity; try discriminate;
        try (intros _; exact Hs). intros h E M. eauto.
  - (* host given as a string *)
    destruct (host_matches h) eqn:Hm; [|discriminate].
    destruct (secret_ok (auth_key_secret given)) eqn:Hs; [|discriminate].
    intros [= <-]. cbn [truthy host auth_key_secret].
    rewrite (host_matches_nonempty h Hm). cbn [negb].
    destruct (auth_key_secret given) as [| | | |k| |] eqn:Hk; try discriminate;
      cbn [truthy secret_ok] in *.
    + repeat split; try reflexivity; try discriminate; try (intros; assumption).
      intros h0 _ _. eauto.
    + rewrite Hs. repeat split; try reflexivity; try discriminate;
        try (intros _; exact Hs). intros h0 _ _. eauto.
Qed.

Lemma setOptions_updates_witness :
  truthy (auth_key_secret (mkOptions (Str "ws://localhost:3000/") (Str "s3cret")))
  = true.
Proof.
  pose proof (setOptions_updates
                (mkOptions (Str "ws://localhost:3000/") Undefined)
                (mkOptions (Str HAS_SERVER) (Str "s3cret"))
                (mkOptions (Str "ws://localhost:3000/") (Str "s3cret"))
                eq_refl) as (_ & _ & _ & H & _).
  apply H. reflexivity.
Defined.

(** X19: the configured host is reported but not used: after
    [setOptions] has accepted a host, [status] shows it, while the socket
    [startWebsocket] opens still goes to the built-in [HAS_SERVER]. *)
Theorem configured_host_not_used given current o g h :
  setOptions given current = Configured o ->
  host given = Str h ->
  status_host (status o g) = Str h
  /\ host_matches h = true
  /\ startWebsocket_url o = HAS_SERVER.
Proof.
  unfold setOptions. intros H Hh. rewrite Hh in H.
  destruct (host_matches h) eqn:Hm; [|discriminate].
  destruct (secret_ok (auth_key_secret given)); [|discriminate].
  injection H as <-. cbn [status status_host host truthy].
  rewrite (host_matches_nonempty h Hm). repeat split.
Qed.

Lemma configured_host_not_used_witness :
  status_host (status (mkOptions (Str "ws://localhost:3000/") Undefined) idle)
  = Str "ws://localhost:3000/"
  /\ startWebsocket_url (mkOptions (Str "ws://localhost:3000/") Undefined)
     <> "ws://localhost:3000/".
Proof.
  pose proof (configured_host_not_used
                (mkOptions (Str "ws://localhost:3000/") Undefined)
                HAS_options_default
                (mkOptions (Str "ws://localhost:3000/") Undefined)
                idle "ws://localhost:3000/" eq_refl eq_refl) as (H1 & _ & H3).
  split; [exact H1|]. rewrite H3. discriminate.
Defined.

(** ** The polling callbacks: edge cases *)

Section Edges.

Variable decrypt : value -> value -> option string.
Variable json_parse : string -> option value.

Lemma wait_run f auth_key cbWait now s req rs :
  truthy_str (Flow.uuid s) = false ->
  getRequest now (wait_kind f) None (Flow.store s) = (Some req, rs) ->
  tick decrypt json_parse f auth_key cbWait now s
  = check_expired now
      (confirm rs req
         (match f with Authenticate => Msg.set_key auth_key req | _ => req end)
         cbWait s).
Proof.
  intros T Hw.
  destruct f; unfold tick, authenticate_tick, authenticate_poll,
    broadcast_tick, broadcast_poll, challenge_tick, challenge_poll;
    rewrite T; cbn [negb wait_kind] in *; rewrite Hw; reflexivity.
Qed.

(** X18: a [*_wait] message without [uuid] (or with an empty one) does
    not confirm the flow: the run still takes the message's [expire] as the
    deadline and calls [cbWait], if given, but the flow keeps looking for a
    [*_wait] message on its next run. *)
Theorem wait_without_id_does_not_confirm f auth_key cbWait now s req rs :
  phase_of s = Sent ->
  getRequest now (wait_kind f) None (Flow.store s) = (Some req, rs) ->
  truthy_str (Msg.uuid req) = false ->
  let s' := tick decrypt json_parse f auth_key cbWait now s in
  phase_of s' = Sent
  /\ Flow.expire s' = Msg.expire req
  /\ List.length (Flow.notified s')
     = (List.length (Flow.notified s) + if cbWait then 1 else 0)%nat.
Proof.
  intros Hph Hw Hu s'. subst s'.
  assert (T : truthy_str (Flow.uuid s) = false).
  { unfold phase_of in Hph. now destruct (truthy_str (Flow.uuid s)). }
  rewrite (wait_run f auth_key cbWait now s req rs T Hw).
  destruct (check_expired_keeps now
              (confirm rs req
                 (match f with Authenticate => Msg.set_key auth_key req | _ => req end)
                 cbWait s)) as (_ & Ku & Ke & Kn & _).
  unfold phase_of. rewrite Ku, Ke, Kn. cbn [confirm Flow.uuid Flow.expire Flow.notified].
  rewrite Hu. repeat split.
  rewrite length_app. now destruct cbWait.
Qed.

(** X21: when a run finds a [*_wait] message, the provisional deadline
    no longer counts, even if it has passed: the closing expiry check is made
    against the message's own [expire], so the pending promise is rejected as
    expired in that run only if that [expire] is reached, and a flow whose
    provisional deadline has passed goes on polling when the message's
    [expire] is still ahead or missing. *)
Theorem found_wait_replaces_deadline f auth_key cbWait now s req rs :
  phase_of s = Sent ->
  Flow.promise s = None ->
  getRequest now (wait_kind f) None (Flow.store s) = (Some req, rs) ->
  let s' := tick decrypt json_parse f auth_key cbWait now s in
  Flow.promise s'
  = (if deadline_passed now (Msg.expire req)
     then Some (RejectedError "expired") else None)
  /\ (deadline_passed now (Msg.expire req) = false ->
      Flow.promise s' = None /\ Flow.waiting s' = Flow.waiting s
      /\ Flow.expire s' = Msg.expire req).
Proof.
  intros Hph P Hw s'. subst s'.
  assert (T : truthy_str (Flow.uuid s) = false).
  { unfold phase_of in Hph. now destruct (truthy_str (Flow.uuid s)). }
  rewrite (wait_run f auth_key cbWait now s req rs T Hw).
  split.
  - now rewrite check_expired_pending.
  - intros D. rewrite check_expired_early by exact D.
    repeat split. exact P.
Qed.

(** X20: the ways a flow ends without an answer.  In [broadcast] and
    [challenge], an err found for the flow's id whose [error] does not
    decrypt clears the interval and leaves the promise pending; in
    [authenticate], an ack whose payload parses to [null] does the same.
    No later tick of the timer changes such a flow. *)
Theorem flow_can_stall f auth_key cbWait now s u rs :
  Flow.uuid s = Some u -> u <> "" ->
  Flow.promise s = None ->
  let s' := tick decrypt json_parse f auth_key cbWait now s in
  ((forall e,
       f <> Authenticate ->
       terminal_lookups f now (Some u) (Flow.store s) = (None, None, Some e, rs) ->
       decrypt (Msg.error e) (Auth.key (Flow.auth s)) = None ->
       s' = clearInterval (with_store rs s))
   /\ (forall a req_nack req_err text,
          f = Authenticate ->
          terminal_lookups f now (Some u) (Flow.store s)
          = (Some a, req_nack, req_err, rs) ->
          decrypt (Msg.data a) auth_key = Some text ->
          json_parse text = Some Null ->
          s' = check_expired now (clearInterval (with_store rs s))))
  /\ (Flow.waiting s' = false -> Flow.promise s' = None ->
      forall later, fire decrypt json_parse f auth_key cbWait later s' = s').
Proof.
  intros U Hu P s'.
  assert (T : truthy_str (Flow.uuid s) = true).
  { rewrite U. simpl. destruct (String.eqb_spec u ""); [contradiction|reflexivity]. }
  split; [split|].
  - intros e Hf L D. subst s'. rewrite <- U in L.
    destruct f; [congruence| |];
      unfold tick, broadcast_tick, broadcast_poll, challenge_tick, challenge_poll;
      rewrite T; cbn [negb]; rewrite L; cbv zeta;
      change (Flow.auth (with_store rs s)) with (Flow.auth s); now rewrite D.
  - intros a req_nack req_err text -> L D J. subst s'. rewrite <- U in L.
    unfold tick, authenticate_tick, authenticate_poll.
    rewrite T. cbn [negb]. rewrite L. cbv zeta. now rewrite D, J.
  - intros W _ later. unfold fire. now rewrite W.
Qed.

End Edges.

Lemma wait_without_id_does_not_confirm_witness :
  phase_of (tick toy_decrypt toy_parse Challenge (Str "k") true 1000
                 (fresh_flow [wire CMD.CHALLENGE_WAIT None (Some 7000) Undefined]))
  = Sent.
Proof.
  apply (wait_without_id_does_not_confirm toy_decrypt toy_parse Challenge (Str "k")
           true 1000
           (fresh_flow [wire CMD.CHALLENGE_WAIT None (Some 7000) Undefined])
           (wire CMD.CHALLENGE_WAIT None (Some 7000) Undefined) []);
    reflexivity.
Defined.

Lemma found_wait_replaces_deadline_witness :
  deadline_passed 6000 (Flow.expire (fresh_flow [auth_wait_abc])) = true
  /\ Flow.promise (tick toy_decrypt toy_parse Authenticate (Str "k") false 6000
                        (fresh_flow [auth_wait_abc])) = None
  /\ Flow.waiting (tick toy_decrypt toy_parse Authenticate (Str "k") false 6000
                        (fresh_flow [auth_wait_abc])) = true.
Proof.
  pose proof (found_wait_replaces_deadline toy_decrypt toy_parse Authenticate
                (Str "k") false 6000 (fresh_flow [auth_wait_abc]) auth_wait_abc []
                eq_refl eq_refl eq_refl) as (_ & H).
  destruct (H eq_refl) as (H1 & H2 & _).
  split; [reflexivity | split; [exact H1 | exact H2]].
Defined.

Lemma flow_can_stall_witness :
  tick toy_decrypt toy_parse Broadcast (Str "k") false 1000
       (confirmed [sign_err_foreign])
  = clearInterval (with_store [] (confirmed [sign_err_foreign])).
Proof.
  pose proof (flow_can_stall toy_decrypt toy_parse Broadcast (Str "k") false 1000
                (confirmed [sign_err_foreign]) "abc" [] eq_refl) as H.
  destruct H as ((H & _) & _); [discriminate | reflexivity |].
  apply (H sign_err_foreign); [discriminate | reflexivity | reflexivity].
Defined.
